(** * configoration: the Section tree of section.go

    A shallow embedding of [section.go] (package [configoration]) and of the
    Go library functions it calls, followed by the properties of the
    section/value tree.

    - [Strings], [Strconv]: the functions of Go's [strings] and [strconv]
      packages that the code calls ([strings.Split], [strconv.Atoi],
      [strconv.ParseBool]), for a 64-bit [int].
    - [GoLib]: float64 with its formatting and parsing, kept abstract.
    - [PackageVars], [error]: the delimiter and the error values, which the
      package declares in other files.
    - [value]: what a [ConfigMap] stores; a [ConfigMap] is a [gmap] from
      strings to values.
    - [section], [heap], [M]: section structs live in a heap and are
      reached through [*section] pointers; every method is a heap
      transformer that can also panic or block on a held mutex.
    - [Section]: a value of the interface type, which is either the nil
      interface or a [*section] pointer (itself possibly nil). *)

From Stdlib Require Import ZArith String Ascii.
From stdpp Require Import base gmap strings list pretty sorting.

#[local] Set Warnings "-register-all".
#[local] Open Scope string_scope.
#[local] Open Scope Z_scope.

(** ** Package [strings] *)

Module Strings.

(** The loop of [genSplit] for a non-empty separator: cut at the
    leftmost occurrence of [sep], continue behind it. Every round
    removes at least one byte, so [length s] rounds are enough. *)
Fixpoint genSplit (fuel : nat) (s sep : string) : list string :=
  match fuel with
  | O => [s]
  | S fuel' =>
      match String.index 0 sep s with
      | None => [s]
      | Some m =>
          let k := (m + String.length sep)%nat in
          String.substring 0 m s
            :: genSplit fuel' (String.substring k (String.length s - k) s) sep
      end
  end.

(** [strings.Split(s, sep)]. With an empty separator Go cuts [s] into its
    UTF-8 sequences ([explode]); that function is a parameter here. *)
Definition Split (explode : string -> list string) (s sep : string)
  : list string :=
  match sep with
  | EmptyString => explode s
  | String _ _ => genSplit (String.length s) s sep
  end.

(** [strings.Join], used to build keys in statements. *)
Fixpoint Join (elems : list string) (sep : string) : string :=
  match elems with
  | [] => ""
  | [e] => e
  | e :: rest => e +:+ sep +:+ Join rest sep
  end.

(** Whether the byte [c] occurs in [s]. *)
Fixpoint contains_byte (c : ascii) (s : string) : bool :=
  match s with
  | EmptyString => false
  | String x s' => Ascii.eqb x c || contains_byte c s'
  end.

End Strings.

(** ** Package [strconv] *)

Module Strconv.

(** [strconv.ErrSyntax] and [strconv.ErrRange]. *)
Inductive NumErrKind := ErrSyntax | ErrRange.

(** [*strconv.NumError]: the failing function, the input text and the
    reason. It has no other field. *)
Record NumError := mkNumError
  { Func : string; Num : string; Err : NumErrKind }.

Definition syntaxError (fn str : string) : NumError :=
  mkNumError fn str ErrSyntax.
Definition rangeError (fn str : string) : NumError :=
  mkNumError fn str ErrRange.

Definition intSize : Z := 64.
Definition maxUint64 : Z := 2 ^ 64 - 1.

Definition byte (c : ascii) : Z := Z.of_N (N_of_ascii c).

(** The fast path of [Atoi]: [ch -= '0'; if ch > 9 { syntax error }]
    on a byte, then [n = n*10 + int(ch)]. *)
Fixpoint atoi_fast (s : string) (n : Z) : option Z :=
  match s with
  | EmptyString => Some n
  | String ch s' =>
      let ch' := (byte ch - 48) mod 256 in
      if 9 <? ch' then None else atoi_fast s' (n * 10 + ch')
  end.

(** The loop of [ParseUint(s, 10, 64)]: a byte that is no decimal digit
    is a syntax error; an overflow of [uint64] stops the loop with a
    range error and the largest value. *)
Fixpoint parseUint_loop (s : string) (n : Z) : Z * option NumErrKind :=
  match s with
  | EmptyString => (n, None)
  | String c s' =>
      if (48 <=? byte c) && (byte c <=? 57) then
        let d := byte c - 48 in
        if maxUint64 / 10 + 1 <=? n then (maxUint64, Some ErrRange)
        else
          let n10 := n * 10 in
          let n1 := (n10 + d) mod 2 ^ 64 in
          if (n1 <? n10) || (maxUint64 <? n1) then (maxUint64, Some ErrRange)
          else parseUint_loop s' n1
      else (0, Some ErrSyntax)
  end.

Definition ParseUint (s : string) : Z * option NumErrKind :=
  match s with
  | EmptyString => (0, Some ErrSyntax)
  | _ => parseUint_loop s 0
  end.

(** [ParseInt(s, 10, 0)] on a 64-bit platform, without the [Func] and
    [Num] fields of the error, which [Atoi] overwrites or which are [s]. *)
Definition ParseInt (s : string) : Z * option NumErrKind :=
  match s with
  | EmptyString => (0, Some ErrSyntax)
  | String c0 rest =>
      let neg := Ascii.eqb c0 "-" in
      let s1 := if Ascii.eqb c0 "+" || neg then rest else s in
      match ParseUint s1 with
      | (_, Some ErrSyntax) => (0, Some ErrSyntax)
      | (un, _) =>
          let cutoff := 2 ^ (intSize - 1) in
          if negb neg && (cutoff <=? un) then (cutoff - 1, Some ErrRange)
          else if neg && (cutoff <? un) then (- cutoff, Some ErrRange)
          else (if neg then - un else un, None)
      end
  end.

(** [strconv.Atoi]. The error, when there is one, is a [NumError] whose
    [Func] is "Atoi" and whose [Num] is the whole input. *)
Definition Atoi (s : string) : Z * option NumError :=
  let sLen := String.length s in
  if (0 <? sLen)%nat && (sLen <? 19)%nat then
    match s with
    | EmptyString => (0, Some (syntaxError "Atoi" s))
    | String c0 rest =>
        let signed := Ascii.eqb c0 "-" || Ascii.eqb c0 "+" in
        let digits := if signed then rest else s in
        if signed && (String.length digits <? 1)%nat
        then (0, Some (syntaxError "Atoi" s))
        else
          match atoi_fast digits 0 with
          | None => (0, Some (syntaxError "Atoi" s))
          | Some n => (if Ascii.eqb c0 "-" then - n else n, None)
          end
    end
  else
    match ParseInt s with
    | (i64, Some k) => (i64, Some (mkNumError "Atoi" s k))
    | (i64, None) => (i64, None)
    end.

(** [strconv.ParseBool]. *)
Definition ParseBool (str : string) : bool * option NumError :=
  if bool_decide (str ∈ ["1"; "t"; "T"; "TRUE"; "true"; "True"])
  then (true, None)
  else if bool_decide (str ∈ ["0"; "f"; "F"; "FALSE"; "false"; "False"])
  then (false, None)
  else (false, Some (syntaxError "ParseBool" str)).

(** [strconv.FormatInt(n, 10)], which is what [%v] prints for an [int]. *)
Definition Itoa (n : Z) : string := pretty n.

End Strconv.

(** ** What the package takes from outside this file *)

(** float64 values, the text [%v] prints for one, and
    [strconv.ParseFloat(s, 64)], which returns a value together with the
    reason of a failure; [explode] is [strings.Split(s, "")]. *)
Class GoLib := {
  float64 : Type;
  float64_zero : float64;
  FormatFloat : float64 -> string;
  ParseFloat : string -> float64 * option Strconv.NumErrKind;
  explode : string -> list string
}.

(** Modelled from the spec: the package variable [Delimiter] is declared
    outside section.go; the spec gives it as a configurable string whose
    default is ":". *)
Class PackageVars := { Delimiter : string }.

(** Modelled from the spec: the error values of the package are declared
    outside section.go. [ErrNil] is the absent error; [ErrInvalidType] is
    the error that the comments of the [Section] interface announce for a
    value of the wrong type. An error that comes from [strconv] is a
    [*NumError]. *)
Inductive error :=
| ErrNil
| ErrInvalidType
| ErrNum (e : Strconv.NumError).

Declare Scope go_scope.
Delimit Scope go_scope with go.

Section Model.

Context {lib : GoLib} {vars : PackageVars}.

(** *** Values and mappings *)

(** Modelled from the spec: the type [ConfigMap] is declared outside
    section.go; a value stored in one is a string, an integer, a float,
    a boolean or a nested [ConfigMap]. The only map expressions of
    section.go are the reads [s.m[k]], which cannot tell a map from a copy
    of it, so a map is embedded by its contents; what the methods do
    write, the mutex of a section struct, is in the heap below. *)
Inductive value :=
| VString (s : string)
| VInt (n : Z)
| VFloat (f : float64)
| VBool (b : bool)
| VMap (m : gmap string value).

(** [type ConfigMap map[string]interface{}] *)
#[local] Abbreviation ConfigMap := (gmap string value).

(** [fmt] prints the entries of a map in the order of their keys. *)
Definition key_le (a b : string * string) : Prop :=
  String.leb a.1 b.1 = true.

#[local] Instance key_le_dec a b : Decision (key_le a b).
Proof. unfold key_le. apply _. Defined.

Definition showMap (entries : gmap string string) : string :=
  "map["
  +:+ String.concat " "
        (map (fun kv : string * string => kv.1 +:+ ":" +:+ kv.2)
             (merge_sort key_le (map_to_list entries)))
  +:+ "]".

(** [fmt.Sprintf("%v", v)] for a stored value. *)
Fixpoint showValue (v : value) : string :=
  match v with
  | VString s => s
  | VInt n => Strconv.Itoa n
  | VFloat f => FormatFloat f
  | VBool b => if b then "true" else "false"
  | VMap m => showMap (showValue <$> m)
  end.

(** [valToString]: [v] is an [interface{}], whose nil prints as "<nil>". *)
Definition valToString (v : option value) : string :=
  match v with
  | None => "<nil>"
  | Some v' => showValue v'
  end.

(** [splitSections]. *)
Definition splitSections (key : string) : list string :=
  Strings.Split explode key Delimiter.

(** *** Section structs, pointers and the heap *)

(** The struct [section]: [mtx] is [true] while the mutex is held. *)
Record section := mkSection { mtx : bool; m : ConfigMap }.

(** A [*section]: [None] is the nil pointer. *)
Definition ptr := option positive.

(** The heap: the section structs in use, by address. *)
#[local] Abbreviation heap := (gmap positive section).

(** A value of the interface type [Section]: [return nil] in a function
    whose result type is [Section] gives the nil interface, which has no
    method table; [return s] with [s] a [*section] gives an interface
    that holds the pointer, also when the pointer is nil. *)
Inductive Section :=
| NilInterface
| Pointer (s : ptr).

(** The result of running a method: it returns with a final heap, it
    panics (nil dereference, index out of range), or it waits forever
    for a mutex that is held. *)
Inductive outcome (A : Type) :=
| Ret (a : A) (h : heap)
| Panic
| Blocked.
#[global] Arguments Ret {A} a h.
#[global] Arguments Panic {A}.
#[global] Arguments Blocked {A}.

Definition M (A : Type) : Type := heap -> outcome A.

Definition ret {A} (a : A) : M A := fun h => Ret a h.

Definition bind {A B} (c : M A) (f : A -> M B) : M B :=
  fun h =>
    match c h with
    | Ret a h' => f a h'
    | Panic => Panic
    | Blocked => Blocked
    end.

Definition panic {A} : M A := fun _ => Panic.

#[local] Notation "x <- c1 ;; c2" := (bind c1 (fun x => c2))
  (at level 100, c1 at next level, right associativity) : go_scope.
#[local] Notation "c1 ;; c2" := (bind c1 (fun _ => c2))
  (at level 100, right associativity) : go_scope.
#[local] Open Scope go_scope.

(** [s.mtx.Lock()] through a non-nil pointer. A pointer always refers to
    an allocated struct in Go; an address outside the heap is treated as a
    fault. *)
Definition Lock (p : positive) : M unit :=
  fun h =>
    match h !! p with
    | None => Panic
    | Some s =>
        if mtx s then Blocked
        else Ret tt (<[p := mkSection true (m s)]> h)
    end.

(** [s.mtx.Unlock()]; unlocking a mutex that is not held is fatal. *)
Definition Unlock (p : positive) : M unit :=
  fun h =>
    match h !! p with
    | None => Panic
    | Some s =>
        if mtx s then Ret tt (<[p := mkSection false (m s)]> h)
        else Panic
    end.

(** Reading the field [s.m]. *)
Definition load_m (p : positive) : M ConfigMap :=
  fun h =>
    match h !! p with
    | None => Panic
    | Some s => Ret (m s) h
    end.

(** [&section{...}]: a struct at an address that was not in use. *)
Definition new (s : section) : M positive :=
  fun h => let p := fresh (dom h) in Ret p (<[p := s]> h).

(** [l[i]] with Go's bounds check, [i] a Go [int]. *)
Definition index {A} (l : list A) (i : Z) : M A :=
  if i <? 0 then panic
  else match l !! Z.to_nat i with
       | Some x => ret x
       | None => panic
       end.

(** *** The methods of [*section] *)

(** [getSection]; the deferred [Unlock] runs after the result is built. *)
Definition getSection (s : ptr) (sec : string) : M ptr :=
  match s with
  | None => panic
  | Some p =>
      Lock p ;;
      mp <- load_m p ;;
      match mp !! sec with
      | Some (VMap vc) =>
          q <- new (mkSection false vc) ;;
          Unlock p ;;
          ret (Some q)
      | _ =>
          Unlock p ;;
          ret None
      end
  end.

(** The [range] loop of [GetSection] over the selectors still to visit:
    [return nil] inside the loop, [return s] behind it. *)
Fixpoint GetSection_range (s : ptr) (selectors : list string) : M Section :=
  match selectors with
  | [] => ret (Pointer s)
  | nextSelector :: rest =>
      match s with
      | None => ret NilInterface
      | Some _ =>
          s' <- getSection s nextSelector ;;
          GetSection_range s' rest
      end
  end.

Definition GetSection (s : ptr) (key : string) : M Section :=
  GetSection_range s (splitSections key).

(** The [for] loop of [GetValue] over [selectors[0 .. lenSelectors-2]];
    the result [None] stands for the early [return nil, ErrNil]. *)
Fixpoint GetValue_for (s : positive) (selectors : list string) : M ptr :=
  match selectors with
  | [] => ret (Some s)
  | sel :: rest =>
      s' <- getSection (Some s) sel ;;
      match s' with
      | None => ret None
      | Some q => GetValue_for q rest
      end
  end.

(** [GetValue]: the pair of Go results, a nil [interface{}] being [None]
    and a nil [error] being [None]. *)
Definition GetValue (s : ptr) (key : string)
  : M (option value * option error) :=
  match s with
  | None => ret (None, Some ErrNil)
  | Some p =>
      let selectors := splitSections key in
      let lenSelectors := length selectors in
      s' <- (if (1 <? lenSelectors)%nat
             then GetValue_for p (take (lenSelectors - 1) selectors)
             else ret (Some p)) ;;
      match s' with
      | None => ret (None, Some ErrNil)
      | Some q =>
          Lock q ;;
          last <- index selectors (Z.of_nat lenSelectors - 1) ;;
          mq <- load_m q ;;
          match mq !! last with
          | None => Unlock q ;; ret (None, Some ErrNil)
          | Some v => Unlock q ;; ret (Some v, None)
          end
      end
  end.

(** The typed getters call [GetValue] and then work on its two results
    only. [GetString_result] is the rest of the body of [GetString] behind
    the call, and so on for the others. *)
Definition GetString_result (r : option value * option error)
  : string * option error :=
  match r.2 with
  | Some err => ("", Some err)
  | None =>
      match r.1 with
      | Some (VString vt) => (vt, None)
      | v => (valToString v, None)
      end
  end.

Definition GetString (s : ptr) (key : string) : M (string * option error) :=
  r <- GetValue s key ;; ret (GetString_result r).

Definition GetInt_result (r : option value * option error)
  : Z * option error :=
  match r.2 with
  | Some err => (0, Some err)
  | None =>
      match r.1 with
      | Some (VInt vt) => (vt, None)
      | v => let a := Strconv.Atoi (valToString v) in (a.1, ErrNum <$> a.2)
      end
  end.

Definition GetInt (s : ptr) (key : string) : M (Z * option error) :=
  r <- GetValue s key ;; ret (GetInt_result r).

Definition GetBool_result (r : option value * option error)
  : bool * option error :=
  match r.2 with
  | Some err => (false, Some err)
  | None =>
      match r.1 with
      | Some (VBool vt) => (vt, None)
      | v => let a := Strconv.ParseBool (valToString v) in
             (a.1, ErrNum <$> a.2)
      end
  end.

Definition GetBool (s : ptr) (key : string) : M (bool * option error) :=
  r <- GetValue s key ;; ret (GetBool_result r).

(** The error of [strconv.ParseFloat] is a [NumError] with its name and
    its input. *)
Definition ParseFloat64 (str : string) : float64 * option Strconv.NumError :=
  let a := ParseFloat str in
  (a.1, Strconv.mkNumError "ParseFloat" str <$> a.2).

Definition GetFloat64_result (r : option value * option error)
  : float64 * option error :=
  match r.2 with
  | Some err => (float64_zero, Some err)
  | None =>
      match r.1 with
      | Some (VFloat vt) => (vt, None)
      | v => let a := ParseFloat64 (valToString v) in (a.1, ErrNum <$> a.2)
      end
  end.

Definition GetFloat64 (s : ptr) (key : string)
  : M (float64 * option error) :=
  r <- GetValue s key ;; ret (GetFloat64_result r).

(** The default-valued getters: [if err != nil { v = def }; return v]. *)
Definition orDef {A B} (r : A * option error) (def : B) (f : A -> B) : B :=
  match r.2 with
  | Some _ => def
  | None => f r.1
  end.

Definition GetValueOrDef (s : ptr) (key : string) (def : option value)
  : M (option value) :=
  r <- GetValue s key ;; ret (orDef r def id).

Definition GetStringOrDef (s : ptr) (key : string) (def : string) : M string :=
  r <- GetString s key ;; ret (orDef r def id).

Definition GetIntOrDef (s : ptr) (key : string) (def : Z) : M Z :=
  r <- GetInt s key ;; ret (orDef r def id).

(** [GetBoolOrDef] returns an [interface{}] that holds the [bool]. *)
Definition GetBoolOrDef (s : ptr) (key : string) (def : bool) : M value :=
  r <- GetBool s key ;; ret (VBool (orDef r def id)).

Definition GetFloat64OrDef (s : ptr) (key : string) (def : float64)
  : M float64 :=
  r <- GetFloat64 s key ;; ret (orDef r def id).

Definition IsNil (s : ptr) : M bool :=
  ret (match s with None => true | Some _ => false end).

(** A method call on a value of the interface type [Section]: the nil
    interface has no method to dispatch to. *)
Definition call {A} (i : Section) (method : ptr -> M A) : M A :=
  match i with
  | NilInterface => panic
  | Pointer s => method s
  end.

End Model.

Abbreviation ConfigMap := (gmap string value).
Abbreviation heap := (gmap positive section).

Notation "x <- c1 ;; c2" := (bind c1 (fun x => c2))
  (at level 100, c1 at next level, right associativity) : go_scope.
Notation "c1 ;; c2" := (bind c1 (fun _ => c2))
  (at level 100, right associativity) : go_scope.

(** ** The tree, read without the heap *)

Section Paths.

Context {lib : GoLib}.

(** One nested-mapping lookup: the mapping stored under [seg], if the key
    is present and its value is a mapping. *)
Definition nested (mp : ConfigMap) (seg : string)
  : option ConfigMap :=
  match mp !! seg with
  | Some (VMap vc) => Some vc
  | _ => None
  end.

(** The chain of nested-mapping lookups along the segments, in order. *)
Fixpoint resolve (mp : ConfigMap) (segs : list string)
  : option ConfigMap :=
  match segs with
  | [] => Some mp
  | seg :: rest =>
      match nested mp seg with
      | Some vc => resolve vc rest
      | None => None
      end
  end.

(** Following the spec's words for [getValue]: all segments except the
    last resolve to nested mappings, then the last one is a key of the
    mapping reached. *)
Definition lookup_path (mp : ConfigMap) (segs : list string)
  : option value * option error :=
  match resolve mp (removelast segs) with
  | None => (None, Some ErrNil)
  | Some mq =>
      match mq !! List.last segs "" with
      | None => (None, Some ErrNil)
      | Some v => (Some v, None)
      end
  end.

(** A heap in which [p] is a section over [mp] whose mutex is free. *)
Definition section_at (h : heap) (p : positive) (mp : ConfigMap)
  : Prop :=
  h !! p = Some (mkSection false mp).

(** Every struct of [h] is found again in [h'], field for field. *)
Definition preserved (h h' : heap) : Prop := h ⊆ h'.

(** A computation that, whenever it returns, has left every struct of the
    heap it started from as it was. *)
Definition read_only {A} (c : M A) : Prop :=
  forall h a h', c h = Ret a h' -> preserved h h'.

(** A computation that returns when it is started from [h]. *)
Definition returns {A} (c : M A) (h : heap) : Prop :=
  exists a h', c h = Ret a h'.

End Paths.

Section Methods.

Context {lib : GoLib} {vars : PackageVars}.

(** A property of computations, asked of every method of the interface
    [Section] on the receiver [s]. *)
Definition all_methods (P : forall A, M A -> Prop) (s : ptr) (key : string)
  (dv : option value) (ds : string) (di : Z) (db : bool) (df : float64)
  : Prop :=
  P _ (GetSection s key) /\ P _ (GetValue s key)
  /\ P _ (GetString s key) /\ P _ (GetInt s key)
  /\ P _ (GetBool s key) /\ P _ (GetFloat64 s key)
  /\ P _ (GetValueOrDef s key dv) /\ P _ (GetStringOrDef s key ds)
  /\ P _ (GetIntOrDef s key di) /\ P _ (GetBoolOrDef s key db)
  /\ P _ (GetFloat64OrDef s key df) /\ P _ (IsNil s).

(** The statements of [GetValue] behind its loop, for a section [q] that
    is not nil and the last selector [last]: under the lock of [q], [last]
    is a key of [q]'s mapping or it is not. *)
Definition GetValue_last (q : positive) (last : string)
  : M (option value * option error) :=
  (Lock q ;;
   mq <- load_m q ;;
   match mq !! last with
   | None => Unlock q ;; ret (None, Some ErrNil)
   | Some v => Unlock q ;; ret (Some v, None)
   end)%go.

(** The texts that [strconv.ParseBool] accepts. *)
Definition bool_literals : list string :=
  ["1"; "t"; "T"; "TRUE"; "true"; "True";
   "0"; "f"; "F"; "FALSE"; "false"; "False"].

End Methods.

(** ** Running the model *)

(** The default delimiter. *)
Definition default_vars : PackageVars := {| Delimiter := ":" |}.

(** A library to run the methods on trees whose leaves are strings,
    integers and booleans: its float64 has the single value 0, printed "0"
    and parsed from "0" alone, and [explode] cuts behind every byte, as Go
    does on ASCII text. *)
Definition plain_lib : GoLib :=
  {| float64 := unit;
     float64_zero := tt;
     FormatFloat := fun _ => "0";
     ParseFloat := fun str =>
       if String.eqb str "0" then (tt, None) else (tt, Some Strconv.ErrSyntax);
     explode := fun s => (fun c => String c "") <$> list_ascii_of_string s |}.

Section Examples.

Context {lib : GoLib}.
#[local] Existing Instance default_vars.
#[local] Open Scope go_scope.

(** The root section sits at address 1 of a heap that holds nothing else. *)
Definition root : positive := 1%positive.

Definition boot (T : ConfigMap) : heap :=
  {[ root := mkSection false T ]}.

(** [{g: {e: {f: "true"}}}] and its nested mappings. *)
Definition tree_f : ConfigMap := {[ "f" := VString "true" ]}.
Definition tree_ef : ConfigMap := {[ "e" := VMap tree_f ]}.
Definition tree_gef : ConfigMap := {[ "g" := VMap tree_ef ]}.

(** [{a: {n: 42, s: "42", bad: "abc", on: true},
      j: "abc", k: "abc", "": 7}] *)
Definition tree_a : ConfigMap :=
  <[ "n" := VInt 42 ]>
    (<[ "s" := VString "42" ]>
       (<[ "bad" := VString "abc" ]> {[ "on" := VBool true ]})).

Definition tree_leaves : ConfigMap :=
  <[ "a" := VMap tree_a ]>
    (<[ "j" := VString "abc" ]>
       (<[ "k" := VString "abc" ]> {[ "" := VInt 7 ]})).

(** [{big: "9223372036854775808", min: "-9223372036854775808"}]: the
    first number is one above the largest 64-bit integer, the second is
    the smallest one. *)
Definition tree_big : ConfigMap :=
  {[ "big" := VString "9223372036854775808";
     "min" := VString "-9223372036854775808" ]}.

(** The heap once [getSection] has made one section, over [T1], from the
    root, and the heap once it has made a second one, over [T2]. *)
Definition boot1 (T T1 : ConfigMap) : heap :=
  <[ 2%positive := mkSection false T1 ]> (boot T).

Definition boot2 (T T1 T2 : ConfigMap) : heap :=
  <[ 3%positive := mkSection false T2 ]> (boot1 T T1).

(** [c.GetSection("x").GetSection("y").GetString("z")] *)
Definition chain_xyz : M (string * option error) :=
  sx <- call (Pointer (Some root)) (fun s => GetSection s "x") ;;
  sy <- call sx (fun s => GetSection s "y") ;;
  call sy (fun s => GetString s "z").

(** [c.GetSection(P).IsNil()] *)
Definition GetSection_IsNil (P : string) : M bool :=
  sec <- call (Pointer (Some root)) (fun s => GetSection s P) ;;
  call sec IsNil.

End Examples.

(** ** Facts about [strings.Split] *)

Section SplitFacts.

#[local] Open Scope nat_scope.

Lemma genSplit_cons fuel s sep :
  exists seg rest, Strings.genSplit fuel s sep = seg :: rest.
Proof.
  destruct fuel as [|fuel]; cbn [Strings.genSplit]; [now eexists _, _|].
  destruct (String.index 0 sep s); now eexists _, _.
Qed.

Lemma index_in_empty sep : sep <> "" -> String.index 0 sep "" = None.
Proof. now destruct sep. Qed.

Lemma length_substring_le n k s : String.length (String.substring n k s) <= k.
Proof.
  revert n k. induction s as [|c s IH]; intros [|n] [|k]; cbn; try lia.
  - specialize (IH 0 k). lia.
  - apply (IH n 0).
  - apply (IH n (S k)).
Qed.

(** Once the fuel covers the length of the text, more fuel changes
    nothing. *)
Lemma genSplit_fuel sep : sep <> "" -> forall f1 f2 s,
  String.length s <= f1 -> String.length s <= f2 ->
  Strings.genSplit f1 s sep = Strings.genSplit f2 s sep.
Proof.
  intros Hsep.
  assert (Hlen : 1 <= String.length sep) by (destruct sep; [congruence|cbn; lia]).
  assert (Hempty : forall f, Strings.genSplit f "" sep = [""]).
  { intros [|f]; cbn [Strings.genSplit]; [reflexivity|].
    now rewrite index_in_empty. }
  induction f1 as [|f1 IH]; intros f2 s H1 H2.
  - destruct s; [|cbn in H1; lia]. now rewrite !Hempty.
  - destruct f2 as [|f2].
    { destruct s; [|cbn in H2; lia]. now rewrite !Hempty. }
    cbn [Strings.genSplit]. destruct (String.index 0 sep s) as [i|]; [|reflexivity].
    f_equal. pose proof (length_substring_le (i + String.length sep)
      (String.length s - (i + String.length sep)) s).
    apply IH; lia.
Qed.

Lemma substring_app_l a x : String.substring 0 (String.length a) (a +:+ x) = a.
Proof.
  induction a as [|c a IH]; simpl; [now destruct x|].
  f_equal. exact IH.
Qed.

Lemma substring_app_r a x k n :
  String.substring (String.length a + k) n (a +:+ x) = String.substring k n x.
Proof. induction a as [|c a IH]; simpl; [reflexivity|exact IH]. Qed.

Lemma substring_all s : String.substring 0 (String.length s) s = s.
Proof. induction s as [|c s IH]; simpl; [reflexivity|f_equal; exact IH]. Qed.

Lemma length_app a b : String.length (a +:+ b) = String.length a + String.length b.
Proof. induction a as [|c a IH]; simpl; [reflexivity|f_equal; exact IH]. Qed.

Lemma prefix_app a x : String.prefix a (a +:+ x) = true.
Proof.
  induction a as [|c a IH]; simpl; [now destruct x|].
  destruct (ascii_dec c c); [exact IH|congruence].
Qed.

(** A text that starts with the separator has its leftmost occurrence at
    position 0. *)
Lemma index_leading sep x : sep <> "" -> String.index 0 sep (sep +:+ x) = Some 0.
Proof.
  intros Hsep. pose proof (prefix_app sep x) as Hp.
  destruct sep as [|c sep]; [congruence|].
  change (String c sep +:+ x) with (String c (sep +:+ x)) in *.
  cbn [String.index]. now rewrite Hp.
Qed.

(** One round of [strings.Split]: when the leftmost occurrence of the
    separator in [a sep b] is the one written, the first segment is [a],
    whatever [a] is, and the rest is the split of [b]. *)
Lemma Split_cut explode a b sep :
  sep <> "" ->
  String.index 0 sep (a +:+ sep +:+ b) = Some (String.length a) ->
  Strings.Split explode (a +:+ sep +:+ b) sep
    = a :: Strings.Split explode b sep.
Proof.
  intros Hsep Hidx.
  assert (Hlen : 1 <= String.length sep) by (destruct sep; [congruence|cbn; lia]).
  unfold Strings.Split. destruct sep as [|c sep'] eqn:Es; [congruence|].
  rewrite <- Es in *.
  assert (Hl : String.length (a +:+ sep +:+ b)
               = String.length a + String.length sep + String.length b)
    by (rewrite !length_app; lia).
  destruct (String.length (a +:+ sep +:+ b)) as [|fuel] eqn:El; [lia|].
  cbn [Strings.genSplit]. rewrite Hidx, substring_app_l. f_equal.
  rewrite substring_app_r.
  replace (String.length (a +:+ sep +:+ b)
           - (String.length a + String.length sep))
    with (String.length b) by lia.
  rewrite <- (Nat.add_0_r (String.length sep)) at 1.
  rewrite (substring_app_r sep b 0), substring_all.
  apply genSplit_fuel; [exact Hsep|lia|lia].
Qed.

Lemma Split_empty explode sep : sep <> "" -> Strings.Split explode "" sep = [""].
Proof. now destruct sep. Qed.

Lemma Split_cons explode s sep :
  sep <> "" -> exists seg rest, Strings.Split explode s sep = seg :: rest.
Proof. destruct sep; [congruence|]. intros _. apply genSplit_cons. Qed.

Lemma index_absent_byte c s :
  Strings.contains_byte c s = false -> String.index 0 (String c "") s = None.
Proof.
  induction s as [|x s IH]; [reflexivity|].
  cbn [Strings.contains_byte]. intros [Hx Hs]%orb_false_iff.
  apply Ascii.eqb_neq in Hx. cbn [String.index String.prefix].
  destruct (ascii_dec c x) as [->|_]; [congruence|].
  now rewrite (IH Hs).
Qed.

Lemma index_behind_segment c a b :
  Strings.contains_byte c a = false ->
  String.index 0 (String c "") (a +:+ String c "" +:+ b)
    = Some (String.length a).
Proof.
  induction a as [|x a IH].
  - intros _. apply (index_leading (String c "") b). discriminate.
  - cbn [Strings.contains_byte]. intros [Hx Ha]%orb_false_iff.
    apply Ascii.eqb_neq in Hx.
    change (String x a +:+ String c "" +:+ b)
      with (String x (a +:+ String c "" +:+ b)).
    cbn [String.index String.prefix String.length].
    destruct (ascii_dec c x) as [->|_]; [congruence|].
    now rewrite (IH Ha).
Qed.

(** With a delimiter of one byte, the segments of a joined key are the
    segments that were joined, the empty ones included. *)
Lemma Split_Join explode c segs :
  segs <> [] ->
  Forall (fun seg => Strings.contains_byte c seg = false) segs ->
  Strings.Split explode (Strings.Join segs (String c "")) (String c "") = segs.
Proof.
  induction segs as [|e [|e2 rest] IH]; intros Hne Hall; [congruence| |].
  - apply Forall_inv in Hall. cbn [Strings.Join Strings.Split].
    destruct (String.length e); cbn [Strings.genSplit]; [reflexivity|].
    now rewrite index_absent_byte.
  - change (Strings.Join (e :: e2 :: rest) (String c ""))
      with (e +:+ String c "" +:+ Strings.Join (e2 :: rest) (String c "")).
    rewrite Split_cut.
    + f_equal. apply IH; [discriminate|]. now apply Forall_inv_tail in Hall.
    + discriminate.
    + apply index_behind_segment. now apply Forall_inv in Hall.
Qed.

End SplitFacts.

Section Proofs.

Context {lib : GoLib} {vars : PackageVars}.
#[local] Open Scope go_scope.

Lemma bind_Ret {A B} (c : M A) (f : A -> M B) h a h' :
  c h = Ret a h' -> bind c f h = f a h'.
Proof. intros E. unfold bind. now rewrite E. Qed.

Lemma Lock_free h p mp :
  section_at h p mp ->
  Lock p h = Ret tt (<[p := mkSection true mp]> h).
Proof. unfold section_at, Lock. intros ->. reflexivity. Qed.

Lemma Unlock_held h p mp :
  h !! p = Some (mkSection true mp) ->
  Unlock p h = Ret tt (<[p := mkSection false mp]> h).
Proof. unfold Unlock. intros ->. reflexivity. Qed.

Lemma fresh_not_at (h : heap) : h !! fresh (dom h) = None.
Proof. apply not_elem_of_dom, is_fresh. Qed.

Lemma getSection_run h p mp sec :
  section_at h p mp ->
  getSection (Some p) sec h =
    match nested mp sec with
    | Some vc =>
        Ret (Some (fresh (dom h))) (<[fresh (dom h) := mkSection false vc]> h)
    | None => Ret None h
    end.
Proof.
  intros Hp. unfold getSection.
  rewrite (bind_Ret _ _ _ _ _ (Lock_free _ _ _ Hp)).
  assert (Hl : (<[p := mkSection true mp]> h) !! p = Some (mkSection true mp))
    by apply lookup_insert_eq.
  assert (Hback : <[p := mkSection false mp]> (<[p := mkSection true mp]> h) = h).
  { rewrite insert_insert_eq. now apply insert_id. }
  assert (Hdom : dom (<[p := mkSection true mp]> h) = dom h).
  { apply dom_insert_lookup_L. now exists (mkSection false mp). }
  unfold bind at 1. unfold load_m at 1. rewrite Hl. cbn [m].
  unfold nested.
  destruct (mp !! sec) as [[ | | | |vc]|] eqn:E;
    try (unfold bind, ret; rewrite (Unlock_held _ _ _ Hl), Hback; reflexivity).
  unfold bind, new, ret. rewrite Hdom.
  set (q := fresh (dom h)).
  assert (Hq : p <> q).
  { intros ->. pose proof (fresh_not_at h) as F. fold q in F. congruence. }
  rewrite (Unlock_held _ _ mp).
  - f_equal. rewrite insert_insert_ne by congruence.
    now rewrite Hback.
  - rewrite lookup_insert_ne by congruence. exact Hl.
Qed.

Lemma preserved_new (h : heap) sc :
  preserved h (<[fresh (dom h) := sc]> h).
Proof. apply insert_subseteq, fresh_not_at. Qed.

Lemma section_at_new (h : heap) vc :
  section_at (<[fresh (dom h) := mkSection false vc]> h) (fresh (dom h)) vc.
Proof. apply lookup_insert_eq. Qed.

Lemma resolve_cons mp seg rest :
  resolve mp (seg :: rest) =
    match nested mp seg with
    | Some vc => resolve vc rest
    | None => None
    end.
Proof. reflexivity. Qed.

Lemma removelast_cons {A} (a b : A) l :
  removelast (a :: b :: l) = a :: removelast (b :: l).
Proof. reflexivity. Qed.

Lemma GetValue_for_cons p sel rest (h : heap) :
  GetValue_for p (sel :: rest) h =
    match getSection (Some p) sel h with
    | Ret (Some q) h1 => GetValue_for q rest h1
    | Ret None h1 => Ret None h1
    | Panic => Panic
    | Blocked => Blocked
    end.
Proof.
  cbn [GetValue_for]. unfold bind.
  now destruct (getSection (Some p) sel h) as [[q|] h1| |].
Qed.

Lemma GetSection_range_cons p sel rest (h : heap) :
  GetSection_range (Some p) (sel :: rest) h =
    match getSection (Some p) sel h with
    | Ret s' h1 => GetSection_range s' rest h1
    | Panic => Panic
    | Blocked => Blocked
    end.
Proof. reflexivity. Qed.

(** The loop of [GetValue] follows [resolve]. *)
Lemma GetValue_for_run selectors : forall (h : heap) p mp,
  section_at h p mp ->
  exists h', preserved h h' /\
    match resolve mp selectors with
    | Some mq =>
        exists q, GetValue_for p selectors h = Ret (Some q) h'
                  /\ section_at h' q mq
    | None => GetValue_for p selectors h = Ret None h'
    end.
Proof.
  induction selectors as [|sel rest IH]; intros h p mp Hp.
  - exists h. split; [reflexivity|]. exists p. now split.
  - rewrite GetValue_for_cons, (getSection_run _ _ _ _ Hp), resolve_cons.
    destruct (nested mp sel) as [vc|].
    + destruct (IH _ _ _ (section_at_new h vc)) as (h' & Hpre & Hrun).
      exists h'. split; [|exact Hrun].
      etransitivity; [apply preserved_new|exact Hpre].
    + exists h. split; reflexivity.
Qed.

(** [GetSection] on a nil pointer: the nil pointer comes back wrapped
    when there is no selector, the nil interface otherwise. *)
Lemma GetSection_range_nil selectors (h : heap) :
  GetSection_range None selectors h =
    Ret (match selectors with [] => Pointer None | _ => NilInterface end) h.
Proof. now destruct selectors. Qed.

(** The loop of [GetSection] follows [resolve]; when the chain breaks, the
    place of the break decides between the nil pointer and the nil
    interface. *)
Lemma GetSection_range_run selectors : forall (h : heap) p mp,
  section_at h p mp ->
  exists h', preserved h h' /\
    match resolve mp selectors with
    | Some mq =>
        exists q, GetSection_range (Some p) selectors h
                    = Ret (Pointer (Some q)) h'
                  /\ section_at h' q mq
    | None =>
        GetSection_range (Some p) selectors h =
          Ret (match resolve mp (removelast selectors) with
               | Some _ => Pointer None
               | None => NilInterface
               end) h'
    end.
Proof.
  induction selectors as [|sel rest IH]; intros h p mp Hp.
  - exists h. split; [reflexivity|]. exists p. now split.
  - rewrite GetSection_range_cons, (getSection_run _ _ _ _ Hp), resolve_cons.
    destruct (nested mp sel) as [vc|] eqn:En.
    + destruct (IH _ _ _ (section_at_new h vc)) as (h' & Hpre & Hrun).
      exists h'. split.
      { etransitivity; [apply preserved_new|exact Hpre]. }
      destruct rest as [|sel2 rest]; [exact Hrun|].
      rewrite removelast_cons, (resolve_cons mp sel), En. exact Hrun.
    + exists h. split; [reflexivity|].
      rewrite GetSection_range_nil.
      destruct rest as [|sel2 rest]; [reflexivity|].
      now rewrite removelast_cons, (resolve_cons mp sel), En.
Qed.

Lemma lookup_last_default {A} (l : list A) d :
  l <> [] -> l !! (length l - 1)%nat = Some (List.last l d).
Proof.
  induction l as [|a [|b l] IH]; intros Hne; [congruence|reflexivity|].
  replace (length (a :: b :: l) - 1)%nat with (S (length (b :: l) - 1))
    by (cbn [length]; lia).
  rewrite lookup_cons, IH by congruence. reflexivity.
Qed.

Lemma index_last {A} (l : list A) d (h : heap) :
  l <> [] -> index l (Z.of_nat (length l) - 1) h = Ret (List.last l d) h.
Proof.
  intros Hne. unfold index.
  assert (0 < length l)%nat by (destruct l; [congruence|cbn; lia]).
  destruct (Z.ltb_spec (Z.of_nat (length l) - 1) 0) as [?|_]; [lia|].
  replace (Z.to_nat (Z.of_nat (length l) - 1)) with (length l - 1)%nat by lia.
  now rewrite (lookup_last_default l d Hne).
Qed.

(** The last statements of [GetValue]: under the lock of [q], the last
    selector is a key of [q]'s mapping or it is not. *)
Lemma GetValue_locked_run (h : heap) q mq (selectors : list string) :
  selectors <> [] ->
  section_at h q mq ->
  (Lock q ;;
   last <- index selectors (Z.of_nat (length selectors) - 1) ;;
   mq' <- load_m q ;;
   match mq' !! last with
   | None => Unlock q ;; ret (None, Some ErrNil)
   | Some v => Unlock q ;; ret (Some v, None)
   end) h
  = Ret (match mq !! List.last selectors "" with
         | None => (None, Some ErrNil)
         | Some v => (Some v, None)
         end) h.
Proof.
  intros Hne Hq.
  assert (Hl : (<[q := mkSection true mq]> h) !! q = Some (mkSection true mq))
    by apply lookup_insert_eq.
  assert (Hback : <[q := mkSection false mq]> (<[q := mkSection true mq]> h) = h).
  { rewrite insert_insert_eq. now apply insert_id. }
  rewrite (bind_Ret _ _ _ _ _ (Lock_free _ _ _ Hq)).
  rewrite (bind_Ret _ _ _ _ _ (index_last _ "" _ Hne)).
  unfold bind at 1, load_m at 1. rewrite Hl. cbn [m].
  destruct (mq !! List.last selectors "") as [v|];
    unfold bind, ret; now rewrite (Unlock_held _ _ _ Hl), Hback.
Qed.

(** [GetValue] on a section over [mp] is [lookup_path] in [mp], for every
    key that has at least one segment. *)
Lemma GetValue_run (h : heap) p mp key :
  splitSections key <> [] ->
  section_at h p mp ->
  exists h', preserved h h' /\
    GetValue (Some p) key h = Ret (lookup_path mp (splitSections key)) h'.
Proof.
  intros Hne Hp. unfold GetValue, lookup_path.
  set (selectors := splitSections key) in *.
  destruct (Nat.ltb_spec 1 (length selectors)) as [Hlen|Hlen].
  - replace (take (length selectors - 1) selectors) with (removelast selectors)
      by (rewrite removelast_firstn_len; f_equal; lia).
    destruct (GetValue_for_run (removelast selectors) h p mp Hp)
      as (h' & Hpre & Hrun).
    exists h'. split; [exact Hpre|].
    destruct (resolve mp (removelast selectors)) as [mq|].
    + destruct Hrun as (q & Hrun & Hq).
      rewrite (bind_Ret _ _ _ _ _ Hrun).
      now apply GetValue_locked_run.
    + now rewrite (bind_Ret _ _ _ _ _ Hrun).
  - exists h. split; [reflexivity|].
    assert (Hone : removelast selectors = []).
    { destruct selectors as [|a [|b l]]; [congruence|reflexivity|cbn in Hlen; lia]. }
    rewrite Hone. cbn [resolve].
    unfold bind at 1, ret at 1.
    now apply GetValue_locked_run.
Qed.

(** *** What a typed getter does with the results of [GetValue] *)

Lemma bind_ret_run {A B} (c : M A) (f : A -> B) (h : heap) :
  (r <- c ;; ret (f r)) h =
    match c h with
    | Ret a h' => Ret (f a) h'
    | Panic => Panic
    | Blocked => Blocked
    end.
Proof. reflexivity. Qed.

Lemma bind_ret_of {A B} (c : M A) (f : A -> B) (h : heap) a h' :
  c h = Ret a h' -> (r <- c ;; ret (f r)) h = Ret (f a) h'.
Proof. intros E. now rewrite bind_ret_run, E. Qed.

Lemma bind_ret_inv {A B} (c : M A) (f : A -> B) (h : heap) b h' :
  (r <- c ;; ret (f r)) h = Ret b h' ->
  exists a, c h = Ret a h' /\ b = f a.
Proof.
  rewrite bind_ret_run. destruct (c h) as [a h1| |]; [|discriminate..].
  intros [= <- <-]. now exists a.
Qed.

(** *** Nil receivers *)

Lemma GetValue_nil_pointer key (h : heap) :
  GetValue None key h = Ret (None, Some ErrNil) h.
Proof. reflexivity. Qed.

Lemma GetSection_nil_pointer key (h : heap) :
  GetSection None key h =
    Ret (match splitSections key with
         | [] => Pointer None
         | _ => NilInterface
         end) h.
Proof. apply GetSection_range_nil. Qed.

Lemma getters_nil_pointer key (h : heap) :
  GetString None key h = Ret ("", Some ErrNil) h
  /\ GetInt None key h = Ret (0, Some ErrNil) h
  /\ GetBool None key h = Ret (false, Some ErrNil) h
  /\ GetFloat64 None key h = Ret (float64_zero, Some ErrNil) h.
Proof. now repeat split. Qed.

Lemma call_nil_interface {A} (method : ptr -> M A) (h : heap) :
  call NilInterface method h = Panic.
Proof. reflexivity. Qed.

(** *** No method writes to a struct it found *)

Lemma read_only_ret {A} (a : A) : read_only (ret a).
Proof. intros h a' h' [= _ <-]. reflexivity. Qed.

Lemma read_only_bind_ret {A B} (c : M A) (f : A -> B) :
  read_only c -> read_only (r <- c ;; ret (f r)).
Proof.
  intros Hc h b h' E. apply bind_ret_inv in E as (a & E & _). eauto.
Qed.

(** A call of [getSection] that returns was made on a section whose mutex
    was free. *)
Lemma getSection_returns_inv (h : heap) p sec r h' :
  getSection (Some p) sec h = Ret r h' -> exists mp, section_at h p mp.
Proof.
  unfold getSection, bind at 1, Lock, section_at.
  destruct (h !! p) as [[[|] mp]|]; [discriminate| |discriminate].
  intros _. now exists mp.
Qed.

Lemma Lock_returns_inv (h : heap) p (u : unit) h' :
  Lock p h = Ret u h' -> exists mp, section_at h p mp.
Proof.
  unfold Lock, section_at.
  destruct (h !! p) as [[[|] mp]|]; [discriminate| |discriminate].
  intros _. now exists mp.
Qed.

Lemma read_only_GetValue_for selectors p : read_only (GetValue_for p selectors).
Proof.
  intros h r h' E. destruct selectors as [|sel rest].
  { injection E as _ <-. reflexivity. }
  assert (exists mp, section_at h p mp) as [mp Hp].
  { rewrite GetValue_for_cons in E.
    destruct (getSection (Some p) sel h) as [r1 h1| |] eqn:Eg; [|discriminate..].
    eapply getSection_returns_inv, Eg. }
  destruct (GetValue_for_run (sel :: rest) h p mp Hp) as (h'' & Hpre & Hrun).
  destruct (resolve mp (sel :: rest)) as [mq|].
  - destruct Hrun as (q & Hrun & _). rewrite Hrun in E.
    now injection E as _ <-.
  - rewrite Hrun in E. now injection E as _ <-.
Qed.

Lemma read_only_GetSection s key : read_only (GetSection s key).
Proof.
  intros h r h' E. unfold GetSection in E.
  destruct s as [p|].
  2:{ rewrite GetSection_range_nil in E. injection E as _ <-. reflexivity. }
  destruct (splitSections key) as [|sel rest].
  { injection E as _ <-. reflexivity. }
  assert (exists mp, section_at h p mp) as [mp Hp].
  { rewrite GetSection_range_cons in E.
    destruct (getSection (Some p) sel h) as [r1 h1| |] eqn:Eg; [|discriminate..].
    eapply getSection_returns_inv, Eg. }
  destruct (GetSection_range_run (sel :: rest) h p mp Hp) as (h'' & Hpre & Hrun).
  destruct (resolve mp (sel :: rest)) as [mq|].
  - destruct Hrun as (q & Hrun & _). rewrite Hrun in E.
    now injection E as _ <-.
  - rewrite Hrun in E. now injection E as _ <-.
Qed.

(** The locked end of [GetValue] returns with the heap it started from. *)
Lemma GetValue_locked_same (h : heap) q (selectors : list string) r h' :
  (Lock q ;;
   last <- index selectors (Z.of_nat (length selectors) - 1) ;;
   mq' <- load_m q ;;
   match mq' !! last with
   | None => Unlock q ;; ret (None, Some ErrNil)
   | Some v => Unlock q ;; ret (Some v, None)
   end) h = Ret r h' ->
  h' = h.
Proof.
  intros E.
  assert (exists mq, section_at h q mq) as [mq Hq].
  { unfold bind at 1 in E.
    destruct (Lock q h) as [u h1| |] eqn:El; [|discriminate..].
    eapply Lock_returns_inv, El. }
  destruct selectors as [|sel rest].
  { rewrite (bind_Ret _ _ _ _ _ (Lock_free _ _ _ Hq)) in E. discriminate. }
  rewrite (GetValue_locked_run h q mq (sel :: rest)) in E by (congruence || assumption).
  now injection E.
Qed.

Lemma read_only_GetValue s key : read_only (GetValue s key).
Proof.
  intros h r h' E. unfold GetValue in E.
  destruct s as [p|]; [|injection E as _ <-; reflexivity].
  unfold bind at 1 in E.
  set (selectors := splitSections key) in *.
  set (c := if (1 <? length selectors)%nat
            then GetValue_for p (take (length selectors - 1) selectors)
            else ret (Some p)) in *.
  assert (Hc : read_only c).
  { subst c. destruct (1 <? length selectors)%nat;
      [apply read_only_GetValue_for|apply read_only_ret]. }
  destruct (c h) as [s' h1| |] eqn:Ec; [|discriminate..].
  apply Hc in Ec.
  destruct s' as [q|].
  - apply GetValue_locked_same in E. now subst h'.
  - injection E as _ <-. exact Ec.
Qed.

(** Every method, on every receiver and heap, is read-only. *)
Lemma read_only_getters s key :
  read_only (GetString s key) /\ read_only (GetInt s key)
  /\ read_only (GetBool s key) /\ read_only (GetFloat64 s key).
Proof.
  repeat split; apply read_only_bind_ret, read_only_GetValue.
Qed.

Lemma read_only_call {A} i (method : ptr -> M A) :
  (forall s, read_only (method s)) -> read_only (call i method).
Proof. intros Hm. destruct i; [discriminate|apply Hm]. Qed.

(** *** Every method returns on a section whose mutex is free *)

Lemma returns_bind_ret {A B} (c : M A) (f : A -> B) (h : heap) :
  returns c h -> returns (r <- c ;; ret (f r)) h.
Proof.
  intros (a & h' & E). exists (f a), h'. now apply bind_ret_of.
Qed.

Lemma returns_GetValue (h : heap) p mp key :
  Delimiter <> "" -> section_at h p mp -> returns (GetValue (Some p) key) h.
Proof.
  intros Hd Hp.
  destruct (GetValue_run h p mp key) as (h' & _ & E); [|exact Hp|].
  - destruct (Split_cons explode key Delimiter Hd) as (seg & rest & Es).
    unfold splitSections. now rewrite Es.
  - eexists _, _. exact E.
Qed.

Lemma returns_GetSection (h : heap) p mp key :
  section_at h p mp -> returns (GetSection (Some p) key) h.
Proof.
  intros Hp.
  destruct (GetSection_range_run (splitSections key) h p mp Hp)
    as (h' & _ & E).
  unfold GetSection.
  destruct (resolve mp (splitSections key)) as [mq|].
  - destruct E as (q & E & _). eexists _, _. exact E.
  - eexists _, _. exact E.
Qed.

(** A key without any segment makes [GetValue] read [selectors[-1]]. Only
    the empty delimiter can give such a key. *)
Lemma GetValue_without_segments (h : heap) p mp key :
  splitSections key = [] ->
  section_at h p mp ->
  GetValue (Some p) key h = Panic.
Proof.
  intros Hs Hp. unfold GetValue. rewrite Hs.
  change (1 <? length [])%nat with false. cbv iota.
  unfold bind at 1, ret at 1.
  now rewrite (bind_Ret _ _ _ _ _ (Lock_free _ _ _ Hp)).
Qed.

(** A method called on a section whose mutex is held waits for it. *)
Lemma GetValue_on_a_held_mutex (h : heap) p mp key :
  h !! p = Some (mkSection true mp) ->
  GetValue (Some p) key h = Blocked.
Proof.
  intros Hp. unfold GetValue, bind at 1.
  destruct (1 <? length (splitSections key))%nat eqn:El.
  - destruct (splitSections key) as [|a [|b l]]; [discriminate..|].
    change (take (length (a :: b :: l) - 1) (a :: b :: l))
      with (a :: take (length l) (b :: l)).
    rewrite GetValue_for_cons.
    unfold getSection, bind at 1, Lock. now rewrite Hp.
  - unfold ret at 1, bind at 1, Lock. now rewrite Hp.
Qed.

(** [GetInt] on the three values of the round trip, wherever they are
    stored. *)
Lemma GetInt_on_stored s key (h : heap) h' :
  (GetValue s key h = Ret (Some (VInt 42), None) h' ->
     GetInt s key h = Ret (42, None) h')
  /\ (GetValue s key h = Ret (Some (VString "42"), None) h' ->
     GetInt s key h = Ret (42, None) h')
  /\ (GetValue s key h = Ret (Some (VString "abc"), None) h' ->
     GetInt s key h
       = Ret (0, Some (ErrNum (Strconv.syntaxError "Atoi" "abc"))) h').
Proof.
  unfold GetInt.
  repeat apply conj; intros E; now rewrite (bind_ret_of _ _ _ _ _ E).
Qed.

(** *** The claims that hold for every delimiter and library *)

(** C3. On a section that is not absent, [GetValue] splits the path; when a
    segment other than the last does not resolve to a nested mapping the
    result is [ErrNil]; when they all resolve, the last segment is a key of
    the mapping reached: [ErrNil] if it is missing, and otherwise the stored
    value as it is, a nested mapping included. *)
Theorem C3_GetValue_follows_the_path (h : heap) p mp key :
  Delimiter <> "" ->
  section_at h p mp ->
  let segs := splitSections key in
  exists h', preserved h h' /\
    (resolve mp (removelast segs) = None ->
       GetValue (Some p) key h = Ret (None, Some ErrNil) h') /\
    (forall mq, resolve mp (removelast segs) = Some mq ->
       mq !! List.last segs "" = None ->
       GetValue (Some p) key h = Ret (None, Some ErrNil) h') /\
    (forall mq v, resolve mp (removelast segs) = Some mq ->
       mq !! List.last segs "" = Some v ->
       GetValue (Some p) key h = Ret (Some v, None) h') /\
    (forall mq vc, resolve mp (removelast segs) = Some mq ->
       mq !! List.last segs "" = Some (VMap vc) ->
       GetValue (Some p) key h = Ret (Some (VMap vc), None) h').
Proof.
  intros Hd Hp segs.
  destruct (GetValue_run h p mp key) as (h' & Hpre & E); [|exact Hp|].
  { destruct (Split_cons explode key Delimiter Hd) as (seg & rest & Es).
    unfold splitSections. now rewrite Es. }
  exists h'. split; [exact Hpre|].
  rewrite E. unfold lookup_path. fold segs.
  repeat split.
  - now intros ->.
  - now intros mq -> ->.
  - now intros mq v -> ->.
  - now intros mq v -> ->.
Qed.

(** C5. A default-valued getter returns what the plain getter returned when
    that one gave no error, returns the default as it is when that one
    gave an error, whatever the error, and has no error result of its
    own. *)
Theorem C5_default_getters s key (dv : option value) (ds : string) (di : Z)
  (db : bool) (df : float64) (h : heap) :
  GetValueOrDef s key dv h =
    match GetValue s key h with
    | Ret (v, None) h' => Ret v h'
    | Ret (_, Some _) h' => Ret dv h'
    | Panic => Panic
    | Blocked => Blocked
    end
  /\ GetStringOrDef s key ds h =
    match GetString s key h with
    | Ret (v, None) h' => Ret v h'
    | Ret (_, Some _) h' => Ret ds h'
    | Panic => Panic
    | Blocked => Blocked
    end
  /\ GetIntOrDef s key di h =
    match GetInt s key h with
    | Ret (v, None) h' => Ret v h'
    | Ret (_, Some _) h' => Ret di h'
    | Panic => Panic
    | Blocked => Blocked
    end
  /\ GetBoolOrDef s key db h =
    match GetBool s key h with
    | Ret (v, None) h' => Ret (VBool v) h'
    | Ret (_, Some _) h' => Ret (VBool db) h'
    | Panic => Panic
    | Blocked => Blocked
    end
  /\ GetFloat64OrDef s key df h =
    match GetFloat64 s key h with
    | Ret (v, None) h' => Ret v h'
    | Ret (_, Some _) h' => Ret df h'
    | Panic => Panic
    | Blocked => Blocked
    end.
Proof.
  unfold GetValueOrDef, GetStringOrDef, GetIntOrDef, GetBoolOrDef,
    GetFloat64OrDef.
  rewrite !bind_ret_run.
  repeat split.
  - now destruct (GetValue s key h) as [[v [e|]] h'| |].
  - now destruct (GetString s key h) as [[v [e|]] h'| |].
  - now destruct (GetInt s key h) as [[v [e|]] h'| |].
  - now destruct (GetBool s key h) as [[v [e|]] h'| |].
  - now destruct (GetFloat64 s key h) as [[v [e|]] h'| |].
Qed.

(** C6. When [GetValue] finds a value at the path, [GetString] gives no
    error: a stored string comes back as it is, and every other value,
    nested mappings included, comes back as the text [%v] prints for it. *)
Theorem C6_GetString_never_fails_on_a_value s key
  (h : heap) v h' :
  GetValue s key h = Ret (Some v, None) h' ->
  GetString s key h =
    Ret (match v with VString str => str | _ => showValue v end, None) h'.
Proof.
  intros E. unfold GetString. rewrite (bind_ret_of _ _ _ _ _ E).
  now destruct v.
Qed.

Lemma Atoi_error str n e :
  Strconv.Atoi str = (n, Some e) ->
  exists k, e = Strconv.mkNumError "Atoi" str k.
Proof.
  unfold Strconv.Atoi, Strconv.syntaxError.
  repeat match goal with
         | |- context [if ?b then _ else _] => destruct b
         | |- context [match ?x with _ => _ end] => destruct x
         end;
    intros [= <- <-] || discriminate; eauto.
Qed.

Lemma ParseBool_error str b e :
  Strconv.ParseBool str = (b, Some e) ->
  e = Strconv.mkNumError "ParseBool" str Strconv.ErrSyntax.
Proof.
  unfold Strconv.ParseBool, Strconv.syntaxError.
  repeat case_bool_decide; now intros [= <- <-].
Qed.

Lemma ParseFloat64_error str f e :
  ParseFloat64 str = (f, Some e) ->
  exists k, e = Strconv.mkNumError "ParseFloat" str k.
Proof.
  unfold ParseFloat64. destruct (ParseFloat str) as [f' [k|]]; cbn.
  - intros [= _ <-]. now exists k.
  - discriminate.
Qed.

(** The error of a typed getter on a value that is found is the error of
    the [strconv] function that was tried: it names that function and the
    text that did not parse, the rendering of the stored value. *)
Lemma typed_getter_errors s key (h : heap) v h' :
  GetValue s key h = Ret (Some v, None) h' ->
  (exists n oe, GetInt s key h = Ret (n, oe) h' /\
     forall e, oe = Some e ->
       e <> ErrNil /\
       exists k, e = ErrNum (Strconv.mkNumError "Atoi" (showValue v) k))
  /\ (exists b oe, GetBool s key h = Ret (b, oe) h' /\
     forall e, oe = Some e ->
       e <> ErrNil /\
       exists k, e = ErrNum (Strconv.mkNumError "ParseBool" (showValue v) k))
  /\ (exists f oe, GetFloat64 s key h = Ret (f, oe) h' /\
     forall e, oe = Some e ->
       e <> ErrNil /\
       exists k, e = ErrNum (Strconv.mkNumError "ParseFloat" (showValue v) k)).
Proof.
  intros E. repeat split.
  - unfold GetInt. rewrite (bind_ret_of _ _ _ _ _ E).
    eexists _, _. split; [apply f_equal2; [apply surjective_pairing|reflexivity]|].
    intros e He.
    assert (exists n ne, Strconv.Atoi (showValue v) = (n, Some ne) /\ e = ErrNum ne)
      as (n & ne & Ha & ->).
    { unfold GetInt_result in He. cbn [fst snd valToString] in He.
      destruct v; try discriminate He;
        destruct (Strconv.Atoi _) as [r1 [ne|]]; try discriminate He;
        injection He as <-; eauto. }
    apply Atoi_error in Ha as [k ->]. split; [discriminate|eauto].
  - unfold GetBool. rewrite (bind_ret_of _ _ _ _ _ E).
    eexists _, _. split; [apply f_equal2; [apply surjective_pairing|reflexivity]|].
    intros e He.
    assert (exists n ne, Strconv.ParseBool (showValue v) = (n, Some ne)
                         /\ e = ErrNum ne)
      as (n & ne & Ha & ->).
    { unfold GetBool_result in He. cbn [fst snd valToString] in He.
      destruct v; try discriminate He;
        destruct (Strconv.ParseBool _) as [r1 [ne|]]; try discriminate He;
        injection He as <-; eauto. }
    apply ParseBool_error in Ha as ->. split; [discriminate|eauto].
  - unfold GetFloat64. rewrite (bind_ret_of _ _ _ _ _ E).
    eexists _, _. split; [apply f_equal2; [apply surjective_pairing|reflexivity]|].
    intros e He.
    assert (exists n ne, ParseFloat64 (showValue v) = (n, Some ne)
                         /\ e = ErrNum ne)
      as (n & ne & Ha & ->).
    { unfold GetFloat64_result in He. cbn [fst snd valToString] in He.
      destruct v; try discriminate He;
        destruct (ParseFloat64 _) as [r1 [ne|]]; try discriminate He;
        injection He as <-; eauto. }
    apply ParseFloat64_error in Ha as [k ->]. split; [discriminate|eauto].
Qed.

(** What a typed getter returns on a value that is found. *)
Lemma typed_getters_on_a_value s key (h : heap) v h' :
  GetValue s key h = Ret (Some v, None) h' ->
  GetInt s key h = Ret (GetInt_result (Some v, None)) h'
  /\ GetBool s key h = Ret (GetBool_result (Some v, None)) h'
  /\ GetFloat64 s key h = Ret (GetFloat64_result (Some v, None)) h'.
Proof.
  intros E. unfold GetInt, GetBool, GetFloat64.
  now rewrite !(bind_ret_of _ _ _ _ _ E).
Qed.

Lemma typed_results_never_absent v :
  (GetInt_result (Some v, None)).2 <> Some ErrNil
  /\ (GetBool_result (Some v, None)).2 <> Some ErrNil
  /\ (GetFloat64_result (Some v, None)).2 <> Some ErrNil.
Proof.
  unfold GetInt_result, GetBool_result, GetFloat64_result.
  cbn [fst snd].
  repeat apply conj; destruct v; cbn [snd]; try discriminate;
    match goal with
    | |- context [ErrNum <$> ?o] => destruct o; discriminate
    end.
Qed.

(** C8 (as amended). When a typed getter finds a value that it cannot
    turn into the requested type, the error it returns is not the absent
    error, and it is the same for every path under which that value is
    stored: what the getter returns depends on the stored value alone, so
    the error does not carry the requested path. *)
Theorem C8_conversion_errors s key (h : heap) v h' s2 key2 (h2 : heap) h2' :
  GetValue s key h = Ret (Some v, None) h' ->
  GetValue s2 key2 h2 = Ret (Some v, None) h2' ->
  (exists r, GetInt s key h = Ret r h'
             /\ GetInt s2 key2 h2 = Ret r h2' /\ r.2 <> Some ErrNil)
  /\ (exists r, GetBool s key h = Ret r h'
                /\ GetBool s2 key2 h2 = Ret r h2' /\ r.2 <> Some ErrNil)
  /\ (exists r, GetFloat64 s key h = Ret r h'
                /\ GetFloat64 s2 key2 h2 = Ret r h2' /\ r.2 <> Some ErrNil).
Proof.
  intros E1 E2.
  destruct (typed_getters_on_a_value _ _ _ _ _ E1) as (I1 & B1 & F1).
  destruct (typed_getters_on_a_value _ _ _ _ _ E2) as (I2 & B2 & F2).
  destruct (typed_results_never_absent v) as (Ni & Nb & Nf).
  repeat apply conj; eexists; eauto.
Qed.

(** C9. No operation of the interface writes to the tree: whenever an
    operation returns, on any receiver and from any heap, every section
    struct that existed is unchanged, its mapping and the nested mappings
    it holds included; and on a section whose mutex is free every
    operation does return. *)
Theorem C9_methods_are_read_only s key (dv : option value) (ds : string)
  (di : Z) (db : bool) (df : float64) :
  all_methods (@read_only lib) s key dv ds di db df
  /\ (forall (h : heap) p mp,
        Delimiter <> "" -> section_at h p mp ->
        all_methods (fun A c => returns c h) (Some p) key dv ds di db df).
Proof.
  pose proof (read_only_GetValue s key) as Hv.
  pose proof (read_only_getters s key) as (Hs & Hi & Hb & Hf).
  split.
  - unfold all_methods, GetValueOrDef, GetStringOrDef, GetIntOrDef,
      GetBoolOrDef, GetFloat64OrDef.
    repeat split;
      first [ apply read_only_GetSection | assumption
            | apply read_only_ret | now apply read_only_bind_ret ].
  - intros h p mp Hd Hp.
    pose proof (returns_GetValue h p mp key Hd Hp) as Rv.
    assert (Rs : returns (GetString (Some p) key) h) by now apply returns_bind_ret.
    assert (Ri : returns (GetInt (Some p) key) h) by now apply returns_bind_ret.
    assert (Rb : returns (GetBool (Some p) key) h) by now apply returns_bind_ret.
    assert (Rf : returns (GetFloat64 (Some p) key) h) by now apply returns_bind_ret.
    unfold all_methods, GetValueOrDef, GetStringOrDef, GetIntOrDef,
      GetBoolOrDef, GetFloat64OrDef.
    repeat split;
      first [ now apply (returns_GetSection h p mp) | assumption
            | now apply returns_bind_ret | now eexists _, _ ].
Qed.

(** C10. Splitting a key on the delimiter gives at least one segment, and
    the empty key gives the single segment ""; so the last segment that
    [GetValue] reads is always there. Nothing is normalised or skipped: the
    text in front of the leftmost delimiter is the first segment whatever
    it is, so an empty key and leading, trailing or repeated delimiters
    give empty segments, which are looked up as the key "". *)
Theorem C10_segments_are_taken_literally :
  Delimiter <> "" ->
  (forall key, exists seg rest, splitSections key = seg :: rest)
  /\ splitSections "" = [""]
  /\ (forall a b,
        String.index 0 Delimiter (a +:+ Delimiter +:+ b)
          = Some (String.length a) ->
        splitSections (a +:+ Delimiter +:+ b) = a :: splitSections b)
  /\ (forall b, splitSections (Delimiter +:+ b) = "" :: splitSections b)
  /\ (forall c segs, Delimiter = String c "" -> segs <> [] ->
        Forall (fun seg => Strings.contains_byte c seg = false) segs ->
        splitSections (Strings.Join segs Delimiter) = segs)
  /\ (forall (h : heap) key,
        GetValue None key h = Ret (None, Some ErrNil) h)
  /\ (forall (h : heap) p mp key, section_at h p mp ->
        exists h', GetValue (Some p) key h
                   = Ret (lookup_path mp (splitSections key)) h')
  /\ (forall (h : heap) p mp, section_at h p mp ->
        GetValue (Some p) "" h =
          Ret (match mp !! "" with
               | Some v => (Some v, None)
               | None => (None, Some ErrNil)
               end) h)
  /\ (forall (h : heap) p mp, section_at h p mp ->
        exists h',
          match nested mp "" with
          | Some vc =>
              exists q, GetSection (Some p) "" h = Ret (Pointer (Some q)) h'
                        /\ section_at h' q vc
          | None => GetSection (Some p) "" h = Ret (Pointer None) h'
          end).
Proof.
  intros Hd.
  assert (Hcons : forall key, exists seg rest, splitSections key = seg :: rest)
    by (intros key; apply Split_cons, Hd).
  assert (Hempty : splitSections "" = [""]) by apply Split_empty, Hd.
  repeat split.
  - exact Hcons.
  - exact Hempty.
  - intros a b Hidx. now apply Split_cut.
  - intros b.
    exact (Split_cut explode "" b Delimiter Hd (index_leading Delimiter b Hd)).
  - intros c segs Hc Hne Hall. unfold splitSections. rewrite Hc.
    now apply Split_Join.
  - intros h p mp key Hp.
    destruct (GetValue_run h p mp key) as (h' & _ & E); [|exact Hp|eauto].
    destruct (Hcons key) as (seg & rest & ->). discriminate.
  - intros h p mp Hp. unfold GetValue. rewrite Hempty.
    change (1 <? length [""])%nat with false. cbv iota.
    unfold bind at 1, ret at 1.
    rewrite (GetValue_locked_run h p mp [""]) by (discriminate || assumption).
    cbn [List.last]. now destruct (mp !! "").
  - intros h p mp Hp.
    destruct (GetSection_range_run [""] h p mp Hp) as (h' & _ & E).
    exists h'. unfold GetSection. rewrite Hempty.
    cbn [resolve removelast] in E.
    destruct (nested mp "") as [vc|]; exact E.
Qed.

(** *** [IsNil] behind [GetSection], and the texts [GetBool] accepts *)

(** [c.GetSection(key).IsNil()] on a section over [mp]: [false] when the
    whole chain resolves, [true] when it breaks at the last segment, and a
    panic when it breaks before, because then [GetSection] has returned
    the nil interface. *)
Lemma IsNil_after_GetSection (h : heap) p mp key :
  section_at h p mp ->
  exists h', preserved h h' /\
    (sec <- GetSection (Some p) key ;; call sec IsNil) h =
      match resolve mp (splitSections key) with
      | Some _ => Ret false h'
      | None =>
          match resolve mp (removelast (splitSections key)) with
          | Some _ => Ret true h'
          | None => Panic
          end
      end.
Proof.
  intros Hp.
  destruct (GetSection_range_run (splitSections key) h p mp Hp)
    as (h' & Hpre & E).
  exists h'. split; [exact Hpre|]. unfold bind, GetSection.
  destruct (resolve mp (splitSections key)) as [mq|].
  - destruct E as (q & -> & _). reflexivity.
  - rewrite E. now destruct (resolve mp (removelast (splitSections key))).
Qed.

(** [GetSection] gives a section that is not absent exactly when the whole
    chain resolves. *)
Lemma GetSection_present_iff (h : heap) p mp key :
  section_at h p mp ->
  (exists q h', GetSection (Some p) key h = Ret (Pointer (Some q)) h')
  <-> is_Some (resolve mp (splitSections key)).
Proof.
  intros Hp.
  destruct (GetSection_range_run (splitSections key) h p mp Hp)
    as (h' & _ & E).
  unfold GetSection.
  destruct (resolve mp (splitSections key)) as [mq|].
  - destruct E as (q & E & _). split; [eauto|]. intros _. eauto.
  - split; [|now intros [? [=]]].
    intros (q & h'' & E'). rewrite E in E'.
    now destruct (resolve mp (removelast (splitSections key))).
Qed.

(** On a value that is no boolean, [GetBool] gives no error exactly when
    the text [%v] prints for the value is one that [ParseBool] accepts. *)
Lemma GetBool_accepts v :
  (forall b, v <> VBool b) ->
  ((GetBool_result (Some v, None)).2 = None <-> showValue v ∈ bool_literals)
  /\ (showValue v ∉ bool_literals ->
      GetBool_result (Some v, None) =
        (false, Some (ErrNum (Strconv.syntaxError "ParseBool" (showValue v))))).
Proof.
  intros Hv.
  assert (E : GetBool_result (Some v, None) =
              ((Strconv.ParseBool (showValue v)).1,
               ErrNum <$> (Strconv.ParseBool (showValue v)).2)).
  { destruct v; try reflexivity. now destruct (Hv b). }
  rewrite E. unfold Strconv.ParseBool, bool_literals.
  repeat case_bool_decide; cbn [fst snd fmap option_fmap option_map];
    rewrite ?elem_of_cons, ?elem_of_nil in *;
    (split; [split|]); intros; try reflexivity; try discriminate; tauto.
Qed.

End Proofs.

(** ** The default delimiter, on concrete trees *)

Section DefaultDelimiter.

Context {lib : GoLib}.
#[local] Existing Instance default_vars.
#[local] Open Scope go_scope.

Lemma section_at_boot (T : ConfigMap) : section_at (boot T) root T.
Proof. apply lookup_singleton_eq. Qed.

(** On every tree without the key "x" the chain panics at its last call. *)
Lemma chain_xyz_panics (T : ConfigMap) :
  T !! "x" = None -> chain_xyz (boot T) = Panic.
Proof.
  intros Hx. unfold chain_xyz, call at 1, bind at 1, GetSection.
  change (splitSections "x") with ["x"].
  rewrite GetSection_range_cons, (getSection_run _ _ _ _ (section_at_boot T)).
  unfold nested. rewrite Hx. reflexivity.
Qed.

(** C1 (the code does not do this). On the tree [{g: {e: {f: "true"}}}],
    which has no key "x": [GetSection("x")] returns a nil pointer as a
    [Section]; [GetSection("y")] on it leaves the loop by [return nil] and
    so returns the nil interface; [GetString("z")] on the nil interface
    panics, and with it the chain
    [GetSection("x").GetSection("y").GetString("z")], where the claim has
    it return the absent error. *)
Theorem C1_chain_on_a_missing_key_panics :
  call (Pointer (Some root)) (fun s => GetSection s "x") (boot tree_gef)
    = Ret (Pointer None) (boot tree_gef)
  /\ call (Pointer None) (fun s => GetSection s "y") (boot tree_gef)
    = Ret NilInterface (boot tree_gef)
  /\ call NilInterface (fun s => GetString s "z") (boot tree_gef) = Panic
  /\ chain_xyz (boot tree_gef) = Panic.
Proof.
  repeat apply conj; [vm_compute; reflexivity..|].
  now apply chain_xyz_panics.
Qed.

(** C2 (the code does not do this). On the tree [{g: {e: {f: "true"}}}]
    and the path "x:y" the chain of nested-mapping lookups fails, yet
    [GetSection("x:y").IsNil()] is not [true]: [GetSection] returns the nil
    interface and the call of [IsNil] panics. On the path "x", where the
    chain breaks at the last segment, [IsNil] is [true]. *)
Theorem C2_IsNil_panics_when_the_chain_breaks_early :
  resolve tree_gef (splitSections "x:y") = None
  /\ GetSection (Some root) "x:y" (boot tree_gef)
     = Ret NilInterface (boot tree_gef)
  /\ GetSection_IsNil "x:y" (boot tree_gef) = Panic
  /\ GetSection_IsNil "x" (boot tree_gef) = Ret true (boot tree_gef)
  /\ GetSection_IsNil "g:e" (boot tree_gef)
     = Ret false (boot2 tree_gef tree_ef tree_f).
Proof. repeat apply conj; vm_compute; reflexivity. Qed.

(** C4 (the code does not do this). Under the path "a:n" is the integer
    42 and [GetInt] returns 42; under "a:s" is the string "42" and [GetInt]
    returns 42; under "a:bad" is the string "abc" and [GetInt] fails, not
    with [ErrInvalidType] but with the [*strconv.NumError] of [Atoi]. *)
Theorem C4_GetInt_on_42_and_on_abc :
  GetInt (Some root) "a:n" (boot tree_leaves)
    = Ret (42, None) (boot1 tree_leaves tree_a)
  /\ GetInt (Some root) "a:s" (boot tree_leaves)
    = Ret (42, None) (boot1 tree_leaves tree_a)
  /\ GetInt (Some root) "a:bad" (boot tree_leaves)
    = Ret (0, Some (ErrNum (Strconv.syntaxError "Atoi" "abc")))
          (boot1 tree_leaves tree_a)
  /\ ErrNum (Strconv.syntaxError "Atoi" "abc") <> ErrInvalidType.
Proof. repeat apply conj; [vm_compute; reflexivity..|discriminate]. Qed.

(** C7 (the code does not do this). On [{g: {e: {f: "true"}}}],
    [GetBool("g:e:f")] returns [true]; on a string that [ParseBool] does
    not accept, here "abc" under the key "k", [GetBool] fails, not with
    [ErrInvalidType] but with the [*strconv.NumError] of [ParseBool]. *)
Theorem C7_GetBool_on_true_and_on_abc :
  GetBool (Some root) "g:e:f" (boot tree_gef)
    = Ret (true, None) (boot2 tree_gef tree_ef tree_f)
  /\ GetBool (Some root) "k" (boot tree_leaves)
    = Ret (false, Some (ErrNum (Strconv.syntaxError "ParseBool" "abc")))
          (boot tree_leaves)
  /\ ErrNum (Strconv.syntaxError "ParseBool" "abc") <> ErrInvalidType.
Proof. repeat apply conj; [vm_compute; reflexivity..|discriminate]. Qed.

(** The default is returned for a path that is absent and for a string
    that is no number. *)
Example GetIntOrDef_falls_back :
  GetIntOrDef (Some root) "missing:path" 7 (boot tree_leaves)
    = Ret 7 (boot tree_leaves)
  /\ GetIntOrDef (Some root) "a:bad" 7 (boot tree_leaves)
    = Ret 7 (boot1 tree_leaves tree_a)
  /\ GetIntOrDef (Some root) "a:s" 7 (boot tree_leaves)
    = Ret 42 (boot1 tree_leaves tree_a).
Proof. repeat apply conj; vm_compute; reflexivity. Qed.

(** Leading, repeated and trailing delimiters give empty segments. *)
Example splitSections_keeps_empty_segments :
  splitSections ":a::b:" = [""; "a"; ""; "b"; ""]
  /\ splitSections "" = [""]
  /\ splitSections ":" = [""; ""].
Proof. repeat apply conj; reflexivity. Qed.

Example Atoi_samples :
  Strconv.Atoi "42" = (42, None)
  /\ Strconv.Atoi "-17" = (-17, None)
  /\ Strconv.Atoi "abc" = (0, Some (Strconv.syntaxError "Atoi" "abc"))
  /\ Strconv.Atoi "9223372036854775808"
     = (9223372036854775807,
        Some (Strconv.rangeError "Atoi" "9223372036854775808")).
Proof. repeat apply conj; reflexivity. Qed.

End DefaultDelimiter.

(** ** The theorems at concrete inputs *)

Section Witnesses.

#[local] Existing Instance plain_lib.
#[local] Existing Instance default_vars.

(** C3 on the path "a:n" of [tree_leaves]. *)
Lemma C3_witness :
  Delimiter <> ""
  /\ section_at (boot tree_leaves) root tree_leaves
  /\ exists h', preserved (boot tree_leaves) h' /\
       (resolve tree_leaves (removelast (splitSections "a:n")) = None ->
          GetValue (Some root) "a:n" (boot tree_leaves)
            = Ret (None, Some ErrNil) h') /\
       (forall mq, resolve tree_leaves (removelast (splitSections "a:n"))
                   = Some mq ->
          mq !! List.last (splitSections "a:n") "" = None ->
          GetValue (Some root) "a:n" (boot tree_leaves)
            = Ret (None, Some ErrNil) h') /\
       (forall mq v, resolve tree_leaves (removelast (splitSections "a:n"))
                     = Some mq ->
          mq !! List.last (splitSections "a:n") "" = Some v ->
          GetValue (Some root) "a:n" (boot tree_leaves)
            = Ret (Some v, None) h') /\
       (forall mq vc, resolve tree_leaves (removelast (splitSections "a:n"))
                      = Some mq ->
          mq !! List.last (splitSections "a:n") "" = Some (VMap vc) ->
          GetValue (Some root) "a:n" (boot tree_leaves)
            = Ret (Some (VMap vc), None) h').
Proof.
  split; [discriminate|]. split; [reflexivity|].
  apply (C3_GetValue_follows_the_path (boot tree_leaves) root tree_leaves "a:n");
    [discriminate|reflexivity].
Defined.

(** C6 on the path "a" of [tree_leaves], where a nested mapping is
    stored. *)
Lemma C6_witness :
  GetValue (Some root) "a" (boot tree_leaves)
    = Ret (Some (VMap tree_a), None) (boot tree_leaves)
  /\ GetString (Some root) "a" (boot tree_leaves)
    = Ret ("map[bad:abc n:42 on:true s:42]", None) (boot tree_leaves).
Proof.
  split; [vm_compute; reflexivity|].
  apply (C6_GetString_never_fails_on_a_value (Some root) "a"
           (boot tree_leaves) (VMap tree_a) (boot tree_leaves)).
  vm_compute; reflexivity.
Defined.

(** C8 on the paths "j" and "k" of [tree_leaves], which both hold the
    string "abc". *)
Lemma C8_witness :
  GetValue (Some root) "j" (boot tree_leaves)
    = Ret (Some (VString "abc"), None) (boot tree_leaves)
  /\ GetValue (Some root) "k" (boot tree_leaves)
    = Ret (Some (VString "abc"), None) (boot tree_leaves)
  /\ exists r, GetInt (Some root) "j" (boot tree_leaves)
                 = Ret r (boot tree_leaves)
               /\ GetInt (Some root) "k" (boot tree_leaves)
                 = Ret r (boot tree_leaves)
               /\ r.2 <> Some ErrNil.
Proof.
  assert (Hj : GetValue (Some root) "j" (boot tree_leaves)
               = Ret (Some (VString "abc"), None) (boot tree_leaves))
    by (vm_compute; reflexivity).
  assert (Hk : GetValue (Some root) "k" (boot tree_leaves)
               = Ret (Some (VString "abc"), None) (boot tree_leaves))
    by (vm_compute; reflexivity).
  split; [exact Hj|]. split; [exact Hk|].
  exact (proj1 (C8_conversion_errors _ _ _ _ _ _ _ _ _ Hj Hk)).
Defined.

(** C8 as it is stated fails on [tree_leaves]: the keys "j" and "k" both
    hold the string "abc" and [GetInt] gives one and the same error for the
    two paths, so no reading of the error gives back the requested path;
    and that error is not [ErrInvalidType]. *)
Lemma C8_error_does_not_carry_the_path :
  ~ (exists path_of : error -> string,
       forall key n e h',
         GetInt (Some root) key (boot tree_leaves) = Ret (n, Some e) h' ->
         path_of e = key)
  /\ exists e,
       GetInt (Some root) "k" (boot tree_leaves)
         = Ret (0, Some e) (boot tree_leaves)
       /\ e = ErrNum (Strconv.mkNumError "Atoi" "abc" Strconv.ErrSyntax)
       /\ e <> ErrInvalidType.
Proof.
  set (e := ErrNum (Strconv.mkNumError "Atoi" "abc" Strconv.ErrSyntax)).
  assert (Hj : GetInt (Some root) "j" (boot tree_leaves)
               = Ret (0, Some e) (boot tree_leaves))
    by (vm_compute; reflexivity).
  assert (Hk : GetInt (Some root) "k" (boot tree_leaves)
               = Ret (0, Some e) (boot tree_leaves))
    by (vm_compute; reflexivity).
  split.
  - intros (path_of & Hpath).
    pose proof (Hpath "j" _ _ _ Hj) as Ej.
    pose proof (Hpath "k" _ _ _ Hk) as Ek.
    rewrite Ej in Ek. discriminate Ek.
  - exists e. repeat apply conj; [exact Hk|reflexivity|discriminate].
Qed.

(** C10 with the default delimiter. *)
Lemma C10_witness :
  Delimiter <> ""
  /\ splitSections "" = [""]
  /\ GetValue (Some root) "" (boot tree_leaves)
     = Ret (Some (VInt 7), None) (boot tree_leaves).
Proof.
  split; [discriminate|].
  destruct (C10_segments_are_taken_literally (vars := default_vars))
    as (_ & Hempty & _ & _ & _ & _ & _ & Hget & _); [discriminate|].
  split; [exact Hempty|].
  exact (Hget (boot tree_leaves) root tree_leaves eq_refl).
Defined.

(** With the delimiter set to the empty string the empty key has no
    segment at all, and [GetValue] panics on it. *)
Example GetValue_with_an_empty_delimiter :
  @splitSections plain_lib {| Delimiter := "" |} "" = []
  /\ @GetValue plain_lib {| Delimiter := "" |} (Some root) ""
       (boot tree_leaves) = Panic.
Proof. split; reflexivity. Qed.

End Witnesses.

(** ** More about [splitSections] *)

Section SplitMore.

#[local] Open Scope nat_scope.

Lemma length_substring n k s :
  String.length (String.substring n k s) = Nat.min k (String.length s - n).
Proof.
  revert n k. induction s as [|c s IH]; intros [|n] [|k]; simpl;
    try reflexivity; try (rewrite IH; reflexivity).
  rewrite IH. now rewrite Nat.sub_0_r.
Qed.

Lemma substring_0_0 s : String.substring 0 0 s = "".
Proof. now destruct s. Qed.

Lemma append_nil_l s : "" +:+ s = s.
Proof. reflexivity. Qed.

Lemma append_cons c a b : String c a +:+ b = String c (a +:+ b).
Proof. reflexivity. Qed.

(** A text is its first [n] bytes, the [k] bytes behind them and the
    rest. *)
Lemma substring_cut3 s : forall n k,
  n + k <= String.length s ->
  s = String.substring 0 n s
      +:+ String.substring n k s
      +:+ String.substring (n + k) (String.length s - (n + k)) s.
Proof.
  induction s as [|c s IH]; intros n k Hl.
  - cbn in Hl. assert (n = 0) as -> by lia. assert (k = 0) as -> by lia.
    reflexivity.
  - cbn [String.length] in Hl. destruct n as [|n]; [destruct k as [|k]|].
    + rewrite substring_0_0, !append_nil_l. cbn [Nat.add].
      rewrite Nat.sub_0_r. now rewrite substring_all.
    + rewrite substring_0_0.
      change (String.substring 0 (S k) (String c s))
        with (String c (String.substring 0 k s)).
      change (String.substring (0 + S k) (String.length (String c s) - (0 + S k))
                (String c s))
        with (String.substring k (String.length s - k) s).
      rewrite append_nil_l, append_cons. f_equal.
      specialize (IH 0 k ltac:(lia)).
      rewrite substring_0_0, append_nil_l in IH. exact IH.
    + change (String.substring 0 (S n) (String c s))
        with (String c (String.substring 0 n s)).
      change (String.substring (S n) k (String c s))
        with (String.substring n k s).
      change (String.substring (S n + k) (String.length (String c s) - (S n + k))
                (String c s))
        with (String.substring (n + k) (String.length s - (n + k)) s).
      rewrite append_cons. f_equal. apply IH. lia.
Qed.

(** Joining the segments of a key with the separator gives back the key. *)
Lemma genSplit_Join sep : sep <> "" -> forall fuel s,
  String.length s <= fuel ->
  Strings.Join (Strings.genSplit fuel s sep) sep = s.
Proof.
  intros Hsep.
  assert (Hlen : 1 <= String.length sep) by (destruct sep; [congruence|cbn; lia]).
  induction fuel as [|fuel IH]; intros s Hs; [reflexivity|].
  cbn [Strings.genSplit].
  destruct (String.index 0 sep s) as [i|] eqn:Ei; [|reflexivity].
  pose proof (index_correct1 _ _ _ _ Ei) as Hsub.
  assert (Hi : i + String.length sep <= String.length s).
  { pose proof (length_substring i (String.length sep) s) as Hl.
    rewrite Hsub in Hl. lia. }
  set (rest := String.substring (i + String.length sep)
                 (String.length s - (i + String.length sep)) s).
  assert (Hrest : String.length rest <= fuel).
  { subst rest. rewrite length_substring. lia. }
  specialize (IH rest Hrest).
  destruct (genSplit_cons fuel rest sep) as (seg & more & Eg).
  rewrite Eg in *.
  change (Strings.Join (String.substring 0 i s :: seg :: more) sep)
    with (String.substring 0 i s +:+ sep +:+ Strings.Join (seg :: more) sep).
  rewrite IH. subst rest. rewrite <- Hsub at 1.
  symmetry. now apply substring_cut3.
Qed.

Lemma genSplit_S fuel s sep :
  Strings.genSplit (S fuel) s sep =
    match String.index 0 sep s with
    | None => [s]
    | Some m =>
        String.substring 0 m s
          :: Strings.genSplit fuel
               (String.substring (m + String.length sep)
                  (String.length s - (m + String.length sep)) s) sep
    end.
Proof. reflexivity. Qed.

Lemma index_byte_cons c x s :
  x <> c ->
  String.index 0 (String c "") (String x s)
  = S <$> String.index 0 (String c "") s.
Proof.
  intros Hx. cbn [String.index String.prefix].
  destruct (ascii_dec c x) as [->|_]; [congruence|].
  now destruct (String.index 0 (String c "") s).
Qed.

(** With a separator of one byte [c], a text that starts with [c] has an
    empty first segment, and any other first byte goes to the front of the
    first segment of the rest. *)
Lemma Split_byte_cons explode c x s :
  Strings.Split explode (String x s) (String c "") =
    if Ascii.eqb x c then "" :: Strings.Split explode s (String c "")
    else match Strings.Split explode s (String c "") with
         | hd :: tl => String x hd :: tl
         | [] => []
         end.
Proof.
  destruct (Ascii.eqb_spec x c) as [->|Hx].
  - apply (Split_cut explode "" s (String c "")); [discriminate|].
    apply (index_leading (String c "") s). discriminate.
  - unfold Strings.Split.
    change (String.length (String x s)) with (S (String.length s)).
    rewrite genSplit_S, (index_byte_cons c x s Hx).
    destruct (String.index 0 (String c "") s) as [i|] eqn:Ei;
      cbn [fmap option_fmap option_map].
    + destruct (String.length s) as [|f] eqn:El.
      { destruct s; [discriminate Ei|discriminate El]. }
      rewrite (genSplit_S f s), Ei, El.
      change (String.substring 0 (S i) (String x s))
        with (String x (String.substring 0 i s)).
      f_equal.
      change (String.length (String c "")) with 1.
      change (String.substring (S i + 1)
                (String.length (String x s) - (S i + 1)) (String x s))
        with (String.substring (i + 1) (String.length s - (i + 1)) s).
      rewrite El.
      apply genSplit_fuel; [discriminate| |];
        rewrite length_substring; lia.
    + destruct (String.length s); [reflexivity|].
      now rewrite genSplit_S, Ei.
Qed.

(** With a separator of one byte, the segments of [k1], the separator and
    [k2] are the segments of [k1] followed by the segments of [k2]. *)
Lemma Split_byte_app explode c k1 k2 :
  Strings.Split explode (k1 +:+ String c "" +:+ k2) (String c "")
  = (Strings.Split explode k1 (String c "")
     ++ Strings.Split explode k2 (String c ""))%list.
Proof.
  induction k1 as [|x k1 IH].
  - rewrite append_nil_l, append_cons, append_nil_l, Split_byte_cons.
    now rewrite Ascii.eqb_refl.
  - rewrite append_cons, !Split_byte_cons, IH.
    destruct (Ascii.eqb x c); [reflexivity|].
    destruct (Split_cons explode k1 (String c "")) as (hd & tl & ->);
      [discriminate|reflexivity].
Qed.

End SplitMore.

(** ** How the methods compose *)

Section Coverage.

Context {lib : GoLib} {vars : PackageVars}.
#[local] Open Scope go_scope.

Lemma bind_assoc {A B C} (c : M A) (f : A -> M B) (g : B -> M C) (h : heap) :
  (y <- (x <- c ;; f x) ;; g y) h = (x <- c ;; y <- f x ;; g y) h.
Proof. unfold bind. now destruct (c h). Qed.

Lemma bind_ext {A B} (c : M A) (f g : A -> M B) (h : heap) :
  (forall a h', f a h' = g a h') -> (x <- c ;; f x) h = (x <- c ;; g x) h.
Proof. intros E. unfold bind. now destruct (c h). Qed.

(** The loop of [GetValue] over [l1] and then [l2] is the loop over [l1]
    followed, from the section it reached, by the loop over [l2]. *)
Lemma GetValue_for_app l1 l2 : forall p (h : heap),
  GetValue_for p (l1 ++ l2) h =
    (s' <- GetValue_for p l1 ;;
     match s' with
     | None => ret None
     | Some q => GetValue_for q l2
     end) h.
Proof.
  induction l1 as [|a l1 IH]; intros p h; [reflexivity|].
  rewrite <- app_comm_cons, !GetValue_for_cons.
  unfold bind at 1. rewrite GetValue_for_cons.
  destruct (getSection (Some p) a h) as [[q|] h1| |]; try reflexivity.
  apply IH.
Qed.

(** The loop of [GetSection] over [l1] and then a list [l2] that is not
    empty: once the loop of [GetValue] over [l1] has stopped, what is left
    is the loop of [GetSection] over [l2]. *)
Lemma GetSection_range_app l1 l2 : l2 <> [] -> forall p (h : heap),
  GetSection_range (Some p) (l1 ++ l2) h =
    (s' <- GetValue_for p l1 ;; GetSection_range s' l2) h.
Proof.
  intros Hl2. induction l1 as [|a l1 IH]; intros p h; [reflexivity|].
  rewrite <- app_comm_cons, GetSection_range_cons.
  unfold bind at 1. rewrite GetValue_for_cons.
  destruct (getSection (Some p) a h) as [[q|] h1| |]; try reflexivity.
  - apply IH.
  - rewrite !GetSection_range_nil.
    destruct l2; [congruence|]. now destruct l1.
Qed.

(** When every selector of [l] but the last resolves, [GetSection] over
    [l] returns, as a pointer, what the loop of [GetValue] over [l]
    returns. *)
Lemma GetSection_range_as_for l : forall p (h : heap) mp,
  l <> [] ->
  section_at h p mp ->
  is_Some (resolve mp (removelast l)) ->
  GetSection_range (Some p) l h =
    (s' <- GetValue_for p l ;; ret (Pointer s')) h.
Proof.
  induction l as [|a [|b l] IH]; intros p h mp Hne Hp Hres; [congruence| |].
  - rewrite GetSection_range_cons. unfold bind. rewrite GetValue_for_cons.
    now destruct (getSection (Some p) a h) as [[q|] h1| |].
  - rewrite removelast_cons, resolve_cons in Hres.
    rewrite GetSection_range_cons. unfold bind at 1.
    rewrite GetValue_for_cons, (getSection_run _ _ _ _ Hp).
    destruct (nested mp a) as [vc|]; [|now destruct Hres].
    apply (IH _ _ vc); [discriminate|apply section_at_new|exact Hres].
Qed.

Lemma resolve_app l1 l2 : forall mp,
  resolve mp (l1 ++ l2) =
    match resolve mp l1 with
    | Some mq => resolve mq l2
    | None => None
    end.
Proof.
  induction l1 as [|a l1 IH]; intros mp; [reflexivity|].
  rewrite <- app_comm_cons, !resolve_cons.
  destruct (nested mp a); [apply IH|reflexivity].
Qed.

(** The whole chain is the chain over all selectors but the last,
    followed by one nested-mapping lookup of the last. *)
Lemma resolve_last l mp :
  l <> [] ->
  resolve mp l =
    match resolve mp (removelast l) with
    | Some mq => nested mq (List.last l "")
    | None => None
    end.
Proof.
  intros Hne.
  rewrite (app_removelast_last "" Hne) at 1.
  rewrite resolve_app. destruct (resolve mp (removelast l)); [|reflexivity].
  cbn [resolve]. now destruct (nested _ _).
Qed.

(** [GetValue] is its loop over all selectors but the last, followed by
    [GetValue_last] on the last. *)
Lemma GetValue_unfold p key (h : heap) :
  splitSections key <> [] ->
  GetValue (Some p) key h =
    (s' <- GetValue_for p (removelast (splitSections key)) ;;
     match s' with
     | None => ret (None, Some ErrNil)
     | Some q => GetValue_last q (List.last (splitSections key) "")
     end) h.
Proof.
  intros Hne. unfold GetValue.
  set (selectors := splitSections key) in *.
  assert (Hloop : (if (1 <? length selectors)%nat
                   then GetValue_for p (take (length selectors - 1) selectors)
                   else ret (Some p))
                  = GetValue_for p (removelast selectors)).
  { destruct (Nat.ltb_spec 1 (length selectors)) as [Hl|Hl].
    - rewrite removelast_firstn_len. do 2 f_equal. lia.
    - destruct selectors as [|a [|b l]]; [congruence|reflexivity|].
      cbn [length] in Hl. lia. }
  rewrite Hloop. apply bind_ext. intros [q|] h1; [|reflexivity].
  unfold GetValue_last. apply bind_ext. intros u h2.
  now rewrite (bind_Ret _ _ _ _ _ (index_last selectors "" h2 Hne)).
Qed.

(** A call of [GetValue] that returns was made on a section whose mutex
    was free, with a key that has a segment. *)
Lemma GetValue_returns_inv p key (h : heap) r h' :
  GetValue (Some p) key h = Ret r h' ->
  splitSections key <> [] /\ exists mp, section_at h p mp.
Proof.
  intros E.
  assert (Hne : splitSections key <> []).
  { intros Hs. unfold GetValue in E. rewrite Hs in E.
    change (1 <? length [])%nat with false in E. cbv iota in E.
    unfold bind at 1, ret at 1 in E. unfold bind at 1 in E.
    destruct (Lock p h) as [u h1| |]; discriminate. }
  split; [exact Hne|].
  rewrite (GetValue_unfold _ _ _ Hne) in E. unfold bind at 1 in E.
  destruct (removelast (splitSections key)) as [|a l].
  - cbn [GetValue_for] in E. unfold ret at 1, GetValue_last, bind at 1 in E.
    destruct (Lock p h) as [u h1| |] eqn:El; [|discriminate..].
    eapply Lock_returns_inv, El.
  - rewrite GetValue_for_cons in E.
    destruct (getSection (Some p) a h) as [s1 h1| |] eqn:Eg; [|discriminate..].
    eapply getSection_returns_inv, Eg.
Qed.

Lemma last_app_r {A} (l1 l2 : list A) d :
  l2 <> [] -> List.last (l1 ++ l2) d = List.last l2 d.
Proof.
  intros Hne. rewrite (app_removelast_last d Hne), app_assoc.
  now rewrite !last_last.
Qed.

Lemma splitSections_cons key :
  Delimiter <> "" -> splitSections key <> [].
Proof.
  intros Hd. destruct (Split_cons explode key Delimiter Hd) as (a & l & E).
  unfold splitSections. now rewrite E.
Qed.

Lemma splitSections_app c k1 k2 :
  Delimiter = String c "" ->
  splitSections (k1 +:+ Delimiter +:+ k2)
  = (splitSections k1 ++ splitSections k2)%list.
Proof. intros Hd. unfold splitSections. rewrite Hd. apply Split_byte_app. Qed.

Lemma call_bind {A B} i (method : ptr -> M A) (g : A -> M B) (h : heap) :
  call i (fun s => x <- method s ;; g x) h = (x <- call i method ;; g x) h.
Proof. now destruct i. Qed.

(** [c.GetSection(k1)] followed by a method that starts with the loop of
    [GetValue]: when all segments of [k1] but the last resolve, the nil
    interface does not arise and the pair is the loop over the segments of
    [k1] followed by the method. *)
Lemma GetSection_then {A} k1 (method : ptr -> M A) (h : heap) p mp :
  Delimiter <> "" ->
  section_at h p mp ->
  is_Some (resolve mp (removelast (splitSections k1))) ->
  (s1 <- GetSection (Some p) k1 ;; call s1 method) h =
    (s' <- GetValue_for p (splitSections k1) ;; method s') h.
Proof.
  intros Hd Hp Hres. unfold GetSection, bind at 1.
  rewrite (GetSection_range_as_for _ _ _ mp (splitSections_cons k1 Hd) Hp Hres).
  unfold bind, ret.
  now destruct (GetValue_for p (splitSections k1) h).
Qed.

(** The chain [c.GetSection(k1).GetValue(k2)] and the single call
    [c.GetValue(k1 + Delimiter + k2)]. *)
Lemma GetSection_GetValue c k1 k2 (h : heap) p mp :
  Delimiter = String c "" ->
  section_at h p mp ->
  is_Some (resolve mp (removelast (splitSections k1))) ->
  (s1 <- GetSection (Some p) k1 ;; call s1 (fun s => GetValue s k2)) h =
    GetValue (Some p) (k1 +:+ Delimiter +:+ k2) h.
Proof.
  intros Hc Hp Hres.
  assert (Hd : Delimiter <> "") by (rewrite Hc; discriminate).
  pose proof (splitSections_cons k2 Hd) as Hk2.
  rewrite (GetSection_then _ _ _ _ _ Hd Hp Hres).
  rewrite GetValue_unfold by (rewrite (splitSections_app c) by exact Hc;
                              intros [_ ?]%app_eq_nil; congruence).
  rewrite (splitSections_app c) by exact Hc.
  rewrite removelast_app, last_app_r by exact Hk2.
  unfold bind at 2. rewrite GetValue_for_app. unfold bind.
  destruct (GetValue_for p (splitSections k1) h) as [[q|] h1| |];
    try reflexivity.
  now rewrite GetValue_unfold.
Qed.

(** X1. With a delimiter of one byte, the segments of two keys joined by
    the delimiter are the segments of the first followed by the segments
    of the second, whatever the two keys are. *)
Theorem X1_segments_of_joined_keys c k1 k2 :
  Delimiter = String c "" ->
  splitSections (k1 +:+ Delimiter +:+ k2)
  = (splitSections k1 ++ splitSections k2)%list.
Proof. apply splitSections_app. Qed.

(** X2. No text is lost by [splitSections]: for a delimiter that is not
    empty, joining the segments of a key with the delimiter gives back the
    key. *)
Theorem X2_joined_segments_are_the_key key :
  Delimiter <> "" ->
  Strings.Join (splitSections key) Delimiter = key.
Proof.
  intros Hd. unfold splitSections, Strings.Split.
  destruct Delimiter as [|c d] eqn:Ed; [congruence|].
  now apply genSplit_Join.
Qed.

(** X3. Navigation in two steps is navigation in one: when every segment
    of [k1] but the last resolves, [c.GetSection(k1).GetSection(k2)] and
    [c.GetSection(k1 + Delimiter + k2)] have the same outcome, result and
    final heap. *)
Theorem X3_GetSection_in_two_steps c k1 k2 (h : heap) p mp :
  Delimiter = String c "" ->
  section_at h p mp ->
  is_Some (resolve mp (removelast (splitSections k1))) ->
  (s1 <- GetSection (Some p) k1 ;; call s1 (fun s => GetSection s k2)) h =
    GetSection (Some p) (k1 +:+ Delimiter +:+ k2) h.
Proof.
  intros Hc Hp Hres.
  assert (Hd : Delimiter <> "") by (rewrite Hc; discriminate).
  rewrite (GetSection_then _ _ _ _ _ Hd Hp Hres).
  unfold GetSection at 2. rewrite (splitSections_app c) by exact Hc.
  now rewrite GetSection_range_app by apply splitSections_cons, Hd.
Qed.

(** X4. Reading below a section is reading the longer key: when every
    segment of [k1] but the last resolves, [c.GetSection(k1).GetValue(k2)]
    has the outcome of [c.GetValue(k1 + Delimiter + k2)], and so have the
    four typed getters. *)
Theorem X4_getters_below_a_section c k1 k2 (h : heap) p mp :
  Delimiter = String c "" ->
  section_at h p mp ->
  is_Some (resolve mp (removelast (splitSections k1))) ->
  let key := k1 +:+ Delimiter +:+ k2 in
  (s1 <- GetSection (Some p) k1 ;; call s1 (fun s => GetValue s k2)) h
    = GetValue (Some p) key h
  /\ (s1 <- GetSection (Some p) k1 ;; call s1 (fun s => GetString s k2)) h
    = GetString (Some p) key h
  /\ (s1 <- GetSection (Some p) k1 ;; call s1 (fun s => GetInt s k2)) h
    = GetInt (Some p) key h
  /\ (s1 <- GetSection (Some p) k1 ;; call s1 (fun s => GetBool s k2)) h
    = GetBool (Some p) key h
  /\ (s1 <- GetSection (Some p) k1 ;; call s1 (fun s => GetFloat64 s k2)) h
    = GetFloat64 (Some p) key h.
Proof.
  intros Hc Hp Hres key.
  pose proof (GetSection_GetValue c k1 k2 h p mp Hc Hp Hres) as Hv.
  assert (Hg : forall B (f : option value * option error -> B),
    (s1 <- GetSection (Some p) k1 ;;
     call s1 (fun s => r <- GetValue s k2 ;; ret (f r))) h
    = (r <- GetValue (Some p) key ;; ret (f r)) h).
  { intros B f.
    rewrite (bind_ext _ _ (fun s1 => r <- call s1 (fun s => GetValue s k2) ;;
                                     ret (f r)))
      by (intros; apply call_bind).
    rewrite <- bind_assoc. unfold bind at 1. rewrite Hv. reflexivity. }
  repeat apply conj; [exact Hv|apply Hg..].
Qed.

Lemma section_at_preserved (h h' : heap) p mp :
  section_at h p mp -> preserved h h' -> section_at h' p mp.
Proof. intros Hp Hpre. exact (lookup_weaken _ _ _ _ Hp Hpre). Qed.

(** X5. A read does not disturb the reads that follow: on a section whose
    mutex is free, [GetValue(k1)] and then [GetValue(k2)] on the same
    section both return, the mutex being free again in between, and the
    second returns what it returns when it is called first. *)
Theorem X5_reads_can_be_repeated k1 k2 (h : heap) p mp :
  Delimiter <> "" ->
  section_at h p mp ->
  exists r1 r2 h1 h2 h2',
    GetValue (Some p) k1 h = Ret r1 h1
    /\ section_at h1 p mp
    /\ GetValue (Some p) k2 h1 = Ret r2 h2
    /\ GetValue (Some p) k2 h = Ret r2 h2'.
Proof.
  intros Hd Hp.
  destruct (GetValue_run h p mp k1 (splitSections_cons k1 Hd) Hp)
    as (h1 & Hpre & E1).
  pose proof (section_at_preserved _ _ _ _ Hp Hpre) as Hp1.
  destruct (GetValue_run h1 p mp k2 (splitSections_cons k2 Hd) Hp1)
    as (h2 & _ & E2).
  destruct (GetValue_run h p mp k2 (splitSections_cons k2 Hd) Hp)
    as (h2' & _ & E2').
  eauto 10.
Qed.

(** [GetSection] over selectors that all resolve makes its result. *)
Lemma GetSection_range_fresh selectors : forall (h : heap) p mp mq,
  selectors <> [] ->
  section_at h p mp ->
  resolve mp selectors = Some mq ->
  exists q h',
    GetSection_range (Some p) selectors h = Ret (Pointer (Some q)) h'
    /\ section_at h' q mq /\ h !! q = None /\ preserved h h'.
Proof.
  induction selectors as [|a rest IH]; intros h p mp mq Hne Hp Hres;
    [congruence|].
  rewrite resolve_cons in Hres.
  rewrite GetSection_range_cons, (getSection_run _ _ _ _ Hp).
  destruct (nested mp a) as [vc|]; [|discriminate].
  destruct rest as [|b rest].
  - injection Hres as <-. eexists _, _. split; [reflexivity|].
    split; [apply section_at_new|]. split; [apply fresh_not_at|].
    apply preserved_new.
  - destruct (IH _ _ _ _ ltac:(discriminate) (section_at_new h vc) Hres)
      as (q & h' & E & Hq & Hfresh & Hpre).
    exists q, h'. split; [exact E|]. split; [exact Hq|].
    assert (Hpre0 : preserved h h')
      by (etransitivity; [apply preserved_new|exact Hpre]).
    split; [|exact Hpre0].
    destruct (h !! q) as [sc|] eqn:Eq; [|reflexivity].
    pose proof (lookup_weaken _ _ _ _ Eq
                  (preserved_new h (mkSection false vc))) as Hin.
    congruence.
Qed.

(** X6. What [GetSection] returns, case by case. When the whole chain of
    nested mappings resolves, it is a pointer to a struct that was not in
    the heap before, over the mapping reached and with a free mutex; when
    the chain breaks at the last segment it is a nil pointer; when it
    breaks before, it is the nil interface. *)
Theorem X6_what_GetSection_returns key (h : heap) p mp :
  Delimiter <> "" ->
  section_at h p mp ->
  match resolve mp (splitSections key) with
  | Some mq =>
      exists q h',
        GetSection (Some p) key h = Ret (Pointer (Some q)) h'
        /\ section_at h' q mq /\ h !! q = None
  | None =>
      exists h',
        GetSection (Some p) key h =
          Ret (match resolve mp (removelast (splitSections key)) with
               | Some _ => Pointer None
               | None => NilInterface
               end) h'
  end.
Proof.
  intros Hd Hp. unfold GetSection.
  destruct (resolve mp (splitSections key)) as [mq|] eqn:Er.
  - destruct (GetSection_range_fresh _ _ _ _ _ (splitSections_cons key Hd)
                Hp Er) as (q & h' & E & Hq & Hfresh & _).
    eauto.
  - destruct (GetSection_range_run (splitSections key) h p mp Hp)
      as (h' & _ & E).
    rewrite Er in E. eauto.
Qed.

(** X7. A nested mapping is reached the same way as a value and as a
    section: [GetValue(key)] returns the mapping [vc] exactly when
    [GetSection(key)] returns a section over [vc]. *)
Theorem X7_a_mapping_as_value_and_as_section key (h : heap) p mp vc :
  Delimiter <> "" ->
  section_at h p mp ->
  (exists h1, GetValue (Some p) key h = Ret (Some (VMap vc), None) h1)
  <-> (exists q h2, GetSection (Some p) key h = Ret (Pointer (Some q)) h2
                    /\ section_at h2 q vc).
Proof.
  intros Hd Hp.
  pose proof (splitSections_cons key Hd) as Hne.
  destruct (GetValue_run h p mp key Hne Hp) as (h1 & _ & Ev).
  destruct (GetSection_range_run (splitSections key) h p mp Hp)
    as (h2 & _ & Es).
  unfold GetSection. rewrite Ev. unfold lookup_path.
  rewrite (resolve_last _ mp Hne) in Es. unfold nested in Es.
  destruct (resolve mp (removelast (splitSections key))) as [mq|].
  - destruct (mq !! List.last (splitSections key) "") as [[ | | | |vc']|].
    1-4,6: split; [intros [? [=]]|intros (q & h' & E & _); congruence].
    destruct Es as (q & Es & Hq). split.
    + intros [? [= <- _]]. eauto.
    + intros (q' & h' & E & Hq'). rewrite Es in E. injection E as <- <-.
      unfold section_at in *. rewrite Hq in Hq'. injection Hq' as <-. eauto.
  - split; [intros [? [=]]|intros (q & h' & E & _); congruence].
Qed.


(** *** Typed getters on values that do not parse *)

Lemma showValue_map_head (vc : ConfigMap) :
  exists rest, showValue (VMap vc) = String "m" rest.
Proof. cbn [showValue]. unfold showMap. eexists. apply append_cons. Qed.

(** No text that starts with the letter m is a number for [Atoi]. *)
Lemma Atoi_m rest :
  Strconv.Atoi (String "m" rest)
  = (0, Some (Strconv.syntaxError "Atoi" (String "m" rest))).
Proof.
  unfold Strconv.Atoi.
  destruct ((0 <? String.length (String "m" rest))%nat
            && (String.length (String "m" rest) <? 19)%nat); reflexivity.
Qed.

Lemma ParseBool_m rest :
  Strconv.ParseBool (String "m" rest)
  = (false, Some (Strconv.syntaxError "ParseBool" (String "m" rest))).
Proof.
  unfold Strconv.ParseBool.
  repeat case_bool_decide; try reflexivity;
    match goal with
    | H : _ ∈ _ |- _ =>
        rewrite ?elem_of_cons, elem_of_nil in H;
        repeat destruct H as [H|H]; discriminate || contradiction
    end.
Qed.

(** X9. A nested mapping is no number and no boolean: when the value
    found is a mapping, [GetInt] returns 0 and [GetBool] returns false,
    each with the syntax error of its [strconv] function, never with
    [ErrNil]; [GetIntOrDef] and [GetBoolOrDef] return their default. *)
Theorem X9_typed_getters_on_a_mapping s key (h : heap) vc h' (di : Z)
  (db : bool) :
  GetValue s key h = Ret (Some (VMap vc), None) h' ->
  GetInt s key h
    = Ret (0, Some (ErrNum (Strconv.syntaxError "Atoi" (showValue (VMap vc)))))
          h'
  /\ GetBool s key h
    = Ret (false,
           Some (ErrNum (Strconv.syntaxError "ParseBool"
                           (showValue (VMap vc))))) h'
  /\ GetIntOrDef s key di h = Ret di h'
  /\ GetBoolOrDef s key db h = Ret (VBool db) h'.
Proof.
  intros E.
  destruct (showValue_map_head vc) as (rest & Hs).
  assert (Hi : GetInt s key h
    = Ret (0, Some (ErrNum (Strconv.syntaxError "Atoi" (showValue (VMap vc)))))
          h').
  { unfold GetInt. rewrite (bind_ret_of _ _ _ _ _ E).
    unfold GetInt_result. cbn [fst snd valToString].
    now rewrite Hs, Atoi_m. }
  assert (Hb : GetBool s key h
    = Ret (false,
           Some (ErrNum (Strconv.syntaxError "ParseBool"
                           (showValue (VMap vc))))) h').
  { unfold GetBool. rewrite (bind_ret_of _ _ _ _ _ E).
    unfold GetBool_result. cbn [fst snd valToString].
    now rewrite Hs, ParseBool_m. }
  repeat apply conj; [exact Hi|exact Hb| |].
  - unfold GetIntOrDef. now rewrite (bind_ret_of _ _ _ _ _ Hi).
  - unfold GetBoolOrDef. now rewrite (bind_ret_of _ _ _ _ _ Hb).
Qed.

(** What [GetValue] returns is a value with a nil error or no value with
    [ErrNil]. *)
Lemma GetValue_result_shape s key (h : heap) rv h' :
  GetValue s key h = Ret rv h' ->
  rv = (None, Some ErrNil) \/ exists v, rv = (Some v, None).
Proof.
  intros E. destruct s as [p|]; [|injection E as <- _; now left].
  destruct (GetValue_returns_inv _ _ _ _ _ E) as (Hne & mp & Hp).
  destruct (GetValue_run h p mp key Hne Hp) as (h1 & _ & E1).
  rewrite E in E1. injection E1 as -> _. unfold lookup_path.
  destruct (resolve mp _) as [mq|]; [|now left].
  destruct (mq !! _) as [v|]; [right; now exists v|now left].
Qed.

(** X10. Absent and mistyped are told apart: for each typed getter, the
    error is [ErrNil] exactly when [GetValue] found no value at the path;
    every other error means that a value is stored there. *)
Theorem X10_ErrNil_means_absent s key (h : heap) rv h' :
  GetValue s key h = Ret rv h' ->
  (rv = (None, Some ErrNil) \/ exists v, rv = (Some v, None))
  /\ exists rs ri rb rf,
       GetString s key h = Ret rs h' /\ GetInt s key h = Ret ri h'
       /\ GetBool s key h = Ret rb h' /\ GetFloat64 s key h = Ret rf h'
       /\ (rs.2 = Some ErrNil <-> rv.1 = None)
       /\ (ri.2 = Some ErrNil <-> rv.1 = None)
       /\ (rb.2 = Some ErrNil <-> rv.1 = None)
       /\ (rf.2 = Some ErrNil <-> rv.1 = None).
Proof.
  intros E. pose proof (GetValue_result_shape _ _ _ _ _ E) as Hshape.
  split; [exact Hshape|].
  exists (GetString_result rv), (GetInt_result rv), (GetBool_result rv),
    (GetFloat64_result rv).
  unfold GetString, GetInt, GetBool, GetFloat64.
  rewrite !(bind_ret_of _ _ _ _ _ E).
  do 4 (split; [reflexivity|]).
  destruct Hshape as [->|[v ->]].
  - now repeat split.
  - destruct (typed_results_never_absent v) as (Ni & Nb & Nf).
    cbn [fst].
    repeat split; try discriminate; try (intros; contradiction).
    intros Hs. now destruct v.
Qed.

(** X11. A key without any segment: [GetValue], which reads the selector
    at index [-1], panics, and with it every typed and default-valued
    getter, while [GetSection] returns its receiver. Only an empty
    delimiter gives such a key. *)
Theorem X11_a_key_without_segments key (h : heap) p mp (dv : option value)
  (di : Z) :
  splitSections key = [] ->
  section_at h p mp ->
  GetValue (Some p) key h = Panic
  /\ GetString (Some p) key h = Panic
  /\ GetInt (Some p) key h = Panic
  /\ GetValueOrDef (Some p) key dv h = Panic
  /\ GetIntOrDef (Some p) key di h = Panic
  /\ GetSection (Some p) key h = Ret (Pointer (Some p)) h.
Proof.
  intros Hs Hp.
  pose proof (GetValue_without_segments h p mp key Hs Hp) as Hv.
  unfold GetString, GetInt, GetValueOrDef, GetIntOrDef, GetString, GetInt,
    GetSection.
  rewrite !bind_ret_run, Hv, Hs. now repeat split.
Qed.

Lemma ParseInt_value_beside_error str n k :
  Strconv.ParseInt str = (n, Some k) ->
  match k with
  | Strconv.ErrSyntax => n = 0
  | Strconv.ErrRange => n = 2 ^ 63 - 1 \/ n = - 2 ^ 63
  end.
Proof.
  unfold Strconv.ParseInt. destruct str as [|c0 rest].
  { now intros [= <- <-]. }
  cbv zeta.
  destruct (Strconv.ParseUint _) as [un [[|]|]].
  - now intros [= <- <-].
  - destruct (negb _ && _); [intros [= <- <-]; now left|].
    destruct (_ && _); [intros [= <- <-]; now right|discriminate].
  - destruct (negb _ && _); [intros [= <- <-]; now left|].
    destruct (_ && _); [intros [= <- <-]; now right|discriminate].
Qed.

Lemma Atoi_value_beside_error str n e :
  Strconv.Atoi str = (n, Some e) ->
  match Strconv.Err e with
  | Strconv.ErrSyntax => n = 0
  | Strconv.ErrRange => n = 2 ^ 63 - 1 \/ n = - 2 ^ 63
  end.
Proof.
  unfold Strconv.Atoi.
  destruct (_ && _).
  - destruct str as [|c0 rest]; [now intros [= <- <-]|]. cbv zeta.
    destruct (_ && _); [now intros [= <- <-]|].
    destruct (Strconv.atoi_fast _ _); [discriminate|now intros [= <- <-]].
  - destruct (Strconv.ParseInt str) as [i64 [k|]] eqn:Ep; [|discriminate].
    intros [= <- <-]. exact (ParseInt_value_beside_error _ _ _ Ep).
Qed.

(** X12. The value that [GetInt] returns beside an error: 0 when the path
    is absent or the text is no number, and the largest or the smallest
    64-bit integer when the number is out of range. *)
Theorem X12_GetInt_beside_an_error s key (h : heap) n e h' :
  GetInt s key h = Ret (n, Some e) h' ->
  match e with
  | ErrNil => n = 0
  | ErrInvalidType => False
  | ErrNum ne =>
      match Strconv.Err ne with
      | Strconv.ErrSyntax => n = 0
      | Strconv.ErrRange => n = 2 ^ 63 - 1 \/ n = - 2 ^ 63
      end
  end.
Proof.
  intros E. apply bind_ret_inv in E as (rv & Ev & Er).
  destruct (GetValue_result_shape _ _ _ _ _ Ev) as [->|[v ->]].
  - now injection Er as -> ->.
  - unfold GetInt_result in Er. cbn [fst snd valToString] in Er.
    assert (Ha : (Strconv.Atoi (showValue v)).1 = n
                 /\ ErrNum <$> (Strconv.Atoi (showValue v)).2 = Some e).
    { destruct v; injection Er as -> Hr; now split. }
    destruct Ha as (Hn & He).
    destruct (Strconv.Atoi (showValue v)) as [n' [ne|]] eqn:Ea;
      [|discriminate].
    cbn in Hn, He. subst n'. injection He as <-.
    exact (Atoi_value_beside_error _ _ _ Ea).
Qed.

(** *** Printing an integer and reading it back *)

Lemma byte_pretty_N_char x :
  (x < 10)%N -> Strconv.byte (pretty_N_char x) = 48 + Z.of_N x.
Proof.
  intros Hx.
  assert (x = 0 \/ x = 1 \/ x = 2 \/ x = 3 \/ x = 4 \/ x = 5 \/ x = 6
          \/ x = 7 \/ x = 8 \/ x = 9)%N as Hc by lia.
  repeat destruct Hc as [->|Hc]; try reflexivity. now subst.
Qed.

(** The last decimal digit [d] of [x] and the number [q] in front of it. *)
Lemma last_digit (x : N) :
  exists q d, Z.of_N (x / 10)%N = q /\ Z.of_N (x mod 10)%N = d
              /\ 0 <= d < 10 /\ 0 <= q /\ q * 10 + d = Z.of_N x.
Proof.
  exists (Z.of_N (x / 10)%N), (Z.of_N (x mod 10)%N).
  split; [reflexivity|]. split; [reflexivity|].
  rewrite N2Z.inj_div, N2Z.inj_mod.
  pose proof (Z.div_mod (Z.of_N x) 10 ltac:(lia)).
  pose proof (Z.mod_pos_bound (Z.of_N x) 10 ltac:(lia)).
  pose proof (Z.div_pos (Z.of_N x) 10 ltac:(lia) ltac:(lia)).
  change (Z.of_N 10) with 10. lia.
Qed.

(** The fast path of [Atoi] on the digits that [pretty] writes for [x] in
    front of [s] goes on, behind them, with [x]. *)
Lemma atoi_fast_pretty x : forall s,
  Strconv.atoi_fast (pretty_N_go x s) 0 = Strconv.atoi_fast s (Z.of_N x).
Proof.
  induction (N.lt_wf_0 x) as [x _ IH]; intros s.
  destruct (N.eq_dec x 0%N) as [->|Hx]; [now rewrite pretty_N_go_0|].
  rewrite pretty_N_go_step by lia.
  rewrite IH by (apply N.div_lt; lia).
  cbn [Strconv.atoi_fast].
  assert (Hm : (x mod 10 < 10)%N) by (apply N.mod_lt; lia).
  rewrite (byte_pretty_N_char _ Hm).
  destruct (last_digit x) as (q & d & -> & -> & Hd & Hq & <-).
  clear IH Hm Hx.
  replace ((48 + d - 48) mod 256) with d by (rewrite Z.mod_small; lia).
  destruct (Z.ltb_spec 9 d) as [?|_]; [lia|reflexivity].
Qed.

(** The same for the loop of [ParseUint], which also checks for overflow:
    none happens below [2^64]. *)
Lemma parseUint_loop_pretty x :
  Z.of_N x <= Strconv.maxUint64 -> forall s,
  Strconv.parseUint_loop (pretty_N_go x s) 0
  = Strconv.parseUint_loop s (Z.of_N x).
Proof.
  assert (Hmax : Strconv.maxUint64 = 18446744073709551615) by reflexivity.
  assert (Hcut : Strconv.maxUint64 / 10 + 1 = 1844674407370955162)
    by reflexivity.
  assert (Hpow : 2 ^ 64 = 18446744073709551616) by reflexivity.
  induction (N.lt_wf_0 x) as [x _ IH]; intros Hb s.
  destruct (N.eq_dec x 0%N) as [->|Hx]; [now rewrite pretty_N_go_0|].
  assert (Hm : (x mod 10 < 10)%N) by (apply N.mod_lt; lia).
  assert (Hlt : (x / 10 < x)%N) by (apply N.div_lt; lia).
  rewrite pretty_N_go_step by lia.
  destruct (last_digit x) as (q & d & Eq & Ed & Hd & Hq & Hx').
  rewrite IH; [|exact Hlt|rewrite Eq, Hmax in *; lia].
  cbn [Strconv.parseUint_loop]. cbv zeta.
  rewrite (byte_pretty_N_char _ Hm), Hcut, Hpow, Eq, Ed.
  rewrite <- Hx', Hmax in *. clear IH Hm Hx Hlt Eq Ed Hx'.
  destruct (Z.leb_spec 48 (48 + d)) as [_|?]; [|lia].
  destruct (Z.leb_spec (48 + d) 57) as [_|?]; [|lia].
  cbn [andb].
  destruct (Z.leb_spec 1844674407370955162 q) as [?|_]; [lia|].
  replace (48 + d - 48) with d by lia.
  rewrite Z.mod_small by lia.
  destruct (Z.ltb_spec (q * 10 + d) (q * 10)) as [?|_]; [lia|].
  destruct (Z.ltb_spec 18446744073709551615 (q * 10 + d)) as [?|_]; [lia|].
  reflexivity.
Qed.

(** What [pretty] writes for a positive number starts with a digit. *)
Lemma pretty_N_go_head x : forall s,
  (0 < x)%N ->
  exists c rest, pretty_N_go x s = String c rest
                 /\ 48 <= Strconv.byte c <= 57.
Proof.
  induction (N.lt_wf_0 x) as [x _ IH]; intros s Hx.
  rewrite pretty_N_go_step by lia.
  destruct (N.eq_dec (x / 10)%N 0%N) as [E|E].
  - rewrite E, pretty_N_go_0. eexists _, _. split; [reflexivity|].
    rewrite byte_pretty_N_char by (apply N.mod_lt; lia).
    destruct (last_digit x) as (q & d & _ & -> & Hd & _). clear - Hd. lia.
  - apply IH; [apply N.div_lt; lia|now apply N.neq_0_lt_0].
Qed.

Lemma not_a_sign c :
  48 <= Strconv.byte c ->
  Ascii.eqb c "-" = false /\ Ascii.eqb c "+" = false.
Proof.
  intros Hc. split.
  - destruct (Ascii.eqb_spec c "-") as [->|]; [|reflexivity].
    cbv in Hc. now destruct Hc.
  - destruct (Ascii.eqb_spec c "+") as [->|]; [|reflexivity].
    cbv in Hc. now destruct Hc.
Qed.

(** [Atoi] on a text of digits, whichever of its two paths it takes. *)
Lemma Atoi_digits c rest n :
  48 <= Strconv.byte c <= 57 ->
  Strconv.atoi_fast (String c rest) 0 = Some n ->
  Strconv.parseUint_loop (String c rest) 0 = (n, None) ->
  n < 2 ^ 63 ->
  Strconv.Atoi (String c rest) = (n, None).
Proof.
  intros Hc Hf Hu Hn.
  destruct (not_a_sign c ltac:(lia)) as (Hm & Hp).
  unfold Strconv.Atoi. destruct (_ && _).
  - cbv zeta. rewrite Hm, Hp. cbn [orb andb]. now rewrite Hf.
  - unfold Strconv.ParseInt. cbv zeta. rewrite Hm, Hp. cbn [orb negb andb].
    unfold Strconv.ParseUint. rewrite Hu.
    change (2 ^ (Strconv.intSize - 1)) with (2 ^ 63).
    destruct (Z.leb_spec (2 ^ 63) n) as [?|_]; [lia|reflexivity].
Qed.

(** [Atoi] on a minus sign followed by digits. *)
Lemma Atoi_minus_digits c rest n :
  48 <= Strconv.byte c <= 57 ->
  Strconv.atoi_fast (String c rest) 0 = Some n ->
  Strconv.parseUint_loop (String c rest) 0 = (n, None) ->
  n <= 2 ^ 63 ->
  Strconv.Atoi (String "-" (String c rest)) = (- n, None).
Proof.
  intros Hc Hf Hu Hn.
  unfold Strconv.Atoi. destruct (_ && _).
  - cbv zeta. change (Ascii.eqb "-" "-") with true. cbn [orb andb].
    change (String.length (String c rest) <? 1)%nat with false.
    cbv iota. now rewrite Hf.
  - unfold Strconv.ParseInt. cbv zeta.
    change (Ascii.eqb "-" "-") with true.
    change (Ascii.eqb "-" "+") with false. cbn [orb negb andb].
    unfold Strconv.ParseUint. rewrite Hu.
    change (2 ^ (Strconv.intSize - 1)) with (2 ^ 63).
    destruct (Z.ltb_spec (2 ^ 63) n) as [?|_]; [lia|reflexivity].
Qed.

(** [Atoi] reads back every 64-bit integer from the text that [%v]
    prints for it. *)
Lemma Atoi_Itoa n :
  - 2 ^ 63 <= n < 2 ^ 63 -> Strconv.Atoi (Strconv.Itoa n) = (n, None).
Proof.
  intros Hn.
  assert (Hmax : Strconv.maxUint64 = 18446744073709551615) by reflexivity.
  assert (Hpow : 2 ^ 63 = 9223372036854775808) by reflexivity.
  destruct n as [|x|x]; [reflexivity| |].
  - unfold Strconv.Itoa, pretty, pretty_Z, pretty, pretty_positive, pretty,
      pretty_N.
    destruct (decide (N.pos x = 0%N)) as [?|_]; [discriminate|].
    destruct (pretty_N_go_head (N.pos x) "" ltac:(lia))
      as (c & rest & E & Hc).
    pose proof (atoi_fast_pretty (N.pos x) "") as Hf.
    pose proof (parseUint_loop_pretty (N.pos x) ltac:(cbn; lia) "") as Hu.
    rewrite E in *.
    now apply Atoi_digits; [| | |cbn in *; lia].
  - unfold Strconv.Itoa, pretty, pretty_Z, pretty, pretty_positive, pretty,
      pretty_N.
    destruct (decide (N.pos x = 0%N)) as [?|_]; [discriminate|].
    destruct (pretty_N_go_head (N.pos x) "" ltac:(lia))
      as (c & rest & E & Hc).
    pose proof (atoi_fast_pretty (N.pos x) "") as Hf.
    pose proof (parseUint_loop_pretty (N.pos x) ltac:(cbn; lia) "") as Hu.
    rewrite E in *.
    change (Z.neg x) with (- Z.of_N (N.pos x)).
    rewrite append_cons, append_nil_l.
    now apply Atoi_minus_digits; [| | |cbn in *; lia].
Qed.

(** X13. Printing and reading back agree: a string leaf that holds the
    text which [%v] prints for a 64-bit integer [n] is read by [GetInt] as
    [n], and one that holds the text printed for a boolean [b] is read by
    [GetBool] as [b], both without error. *)
Theorem X13_printed_values_are_read_back s key (h : heap) h' :
  (forall n, - 2 ^ 63 <= n < 2 ^ 63 ->
     GetValue s key h = Ret (Some (VString (showValue (VInt n))), None) h' ->
     GetInt s key h = Ret (n, None) h')
  /\ (forall b,
     GetValue s key h = Ret (Some (VString (showValue (VBool b))), None) h' ->
     GetBool s key h = Ret (b, None) h').
Proof.
  split.
  - intros n Hn E. unfold GetInt. rewrite (bind_ret_of _ _ _ _ _ E).
    unfold GetInt_result. cbn [fst snd valToString showValue].
    now rewrite (Atoi_Itoa n Hn).
  - intros b E. unfold GetBool. rewrite (bind_ret_of _ _ _ _ _ E).
    now destruct b.
Qed.

(** *** Which texts [GetBool] reads, and how large [GetInt] can get *)

(** X14. The vocabulary of [GetBool]: on a value that is no boolean it
    returns [true] without error exactly when the text printed for the
    value is one of 1, t, T, TRUE, true, True; [false] without error
    exactly when it is one of 0, f, F, FALSE, false, False; and for every
    other text it returns [false] with the syntax error of [ParseBool]. *)
Theorem X14_GetBool_vocabulary s key (h : heap) v h' :
  GetValue s key h = Ret (Some v, None) h' ->
  (forall b, v <> VBool b) ->
  (GetBool s key h = Ret (true, None) h'
   <-> showValue v ∈ ["1"; "t"; "T"; "TRUE"; "true"; "True"])
  /\ (GetBool s key h = Ret (false, None) h'
      <-> showValue v ∈ ["0"; "f"; "F"; "FALSE"; "false"; "False"])
  /\ (showValue v ∉ bool_literals ->
      GetBool s key h =
        Ret (false,
             Some (ErrNum (Strconv.syntaxError "ParseBool" (showValue v))))
            h').
Proof.
  intros E Hv.
  assert (Eb : GetBool s key h =
               Ret ((Strconv.ParseBool (showValue v)).1,
                    ErrNum <$> (Strconv.ParseBool (showValue v)).2) h').
  { unfold GetBool. rewrite (bind_ret_of _ _ _ _ _ E).
    destruct v; try reflexivity. now destruct (Hv b). }
  rewrite Eb. unfold Strconv.ParseBool, bool_literals.
  repeat case_bool_decide; cbn [fst snd fmap option_fmap option_map];
    repeat apply conj; try split; intros; try reflexivity;
    try discriminate; try assumption;
    rewrite ?elem_of_cons, ?elem_of_nil in *;
    repeat match goal with H : _ \/ _ |- _ => destruct H as [H|H] end;
    try (subst; discriminate); try contradiction; try tauto;
    try congruence.
Qed.

Lemma atoi_fast_bound str : forall acc n,
  0 <= acc ->
  Strconv.atoi_fast str acc = Some n ->
  0 <= n < (acc + 1) * 10 ^ Z.of_nat (String.length str).
Proof.
  induction str as [|c str IH]; intros acc n Hacc E.
  - injection E as <-. cbn. lia.
  - cbn [Strconv.atoi_fast] in E. cbv zeta in E.
    set (d := (Strconv.byte c - 48) mod 256) in *.
    assert (Hd : 0 <= d < 256) by (apply Z.mod_pos_bound; lia).
    destruct (Z.ltb_spec 9 d) as [?|Hd9]; [discriminate|].
    apply IH in E; [|lia].
    change (String.length (String c str)) with (S (String.length str)).
    rewrite Nat2Z.inj_succ, Z.pow_succ_r by lia.
    assert (0 < 10 ^ Z.of_nat (String.length str)) by (apply Z.pow_pos_nonneg; lia).
    nia.
Qed.

Lemma parseUint_loop_nonneg str : forall acc r e,
  0 <= acc ->
  Strconv.parseUint_loop str acc = (r, e) -> 0 <= r.
Proof.
  induction str as [|c str IH]; intros acc r e Hacc E.
  - now injection E as <- _.
  - cbn [Strconv.parseUint_loop] in E. cbv zeta in E.
    destruct (_ && _); [|injection E as <- _; lia].
    destruct (_ <=? _); [injection E as <- _; discriminate|].
    destruct (_ || _); [injection E as <- _; discriminate|].
    apply IH in E; [exact E|]. apply Z.mod_pos_bound. reflexivity.
Qed.

(** A number that [Atoi] returns without error is a 64-bit integer. *)
Lemma Atoi_in_range str n :
  Strconv.Atoi str = (n, None) -> - 2 ^ 63 <= n < 2 ^ 63.
Proof.
  assert (Hpow : 2 ^ 63 = 9223372036854775808) by reflexivity.
  unfold Strconv.Atoi.
  destruct (_ && _) eqn:Elen.
  - apply andb_prop in Elen as (_ & Hlt%Nat.ltb_lt).
    destruct str as [|c0 rest]; [discriminate|]. cbv zeta.
    destruct (_ && _); [discriminate|].
    destruct (Strconv.atoi_fast _ 0) as [m|] eqn:Ef; [|discriminate].
    apply atoi_fast_bound in Ef; [|lia].
    assert (Hl : Z.of_nat (String.length
                   (if Ascii.eqb c0 "-" || Ascii.eqb c0 "+"
                    then rest else String c0 rest)) <= 18).
    { destruct (_ || _); cbn [String.length] in *; lia. }
    assert (Hp : 10 ^ Z.of_nat (String.length
                   (if Ascii.eqb c0 "-" || Ascii.eqb c0 "+"
                    then rest else String c0 rest)) <= 10 ^ 18)
      by (apply Z.pow_le_mono_r; lia).
    change (10 ^ 18) with 1000000000000000000 in Hp.
    intros [= <-]. destruct (Ascii.eqb c0 "-"); lia.
  - destruct (Strconv.ParseInt str) as [i64 [k|]] eqn:Ep; [discriminate|].
    intros [= <-]. unfold Strconv.ParseInt in Ep.
    destruct str as [|c0 rest]; [discriminate|]. cbv zeta in Ep.
    change (2 ^ (Strconv.intSize - 1)) with (2 ^ 63) in Ep.
    unfold Strconv.ParseUint in Ep.
    destruct (if Ascii.eqb c0 "+" || Ascii.eqb c0 "-"
              then rest else String c0 rest) as [|c1 r1] eqn:Es1;
      [discriminate|].
    destruct (Strconv.parseUint_loop (String c1 r1) 0) as [un e] eqn:Eu.
    apply parseUint_loop_nonneg in Eu; [|lia].
    assert (Ep' :
      (if negb (Ascii.eqb c0 "-") && (2 ^ 63 <=? un)
       then (2 ^ 63 - 1, Some Strconv.ErrRange)
       else if Ascii.eqb c0 "-" && (2 ^ 63 <? un)
            then (- 2 ^ 63, Some Strconv.ErrRange)
            else (if Ascii.eqb c0 "-" then - un else un, None))
      = (i64, None)).
    { destruct e as [[|]|]; [discriminate|exact Ep|exact Ep]. }
    clear Ep. destruct (Ascii.eqb c0 "-"); cbn [negb andb] in Ep'.
    + destruct (Z.ltb_spec (2 ^ 63) un); [discriminate|].
      injection Ep' as <-. lia.
    + destruct (Z.leb_spec (2 ^ 63) un); [discriminate|].
      injection Ep' as <-. lia.
Qed.

(** X15. [GetInt] does not wrap around: when it returns without error and
    the integer it found, if it found one, is a 64-bit integer, then so is
    the number it returns. *)
Theorem X15_GetInt_is_a_64_bit_integer s key (h : heap) v n h' :
  GetValue s key h = Ret (Some v, None) h' ->
  (forall m, v = VInt m -> - 2 ^ 63 <= m < 2 ^ 63) ->
  GetInt s key h = Ret (n, None) h' ->
  - 2 ^ 63 <= n < 2 ^ 63.
Proof.
  intros Ev Hv Ei. unfold GetInt in Ei.
  rewrite (bind_ret_of _ _ _ _ _ Ev) in Ei. injection Ei as Ei.
  unfold GetInt_result in Ei. cbn [fst snd valToString] in Ei.
  assert (Ha : v = VInt n
               \/ Strconv.Atoi (showValue v) = (n, None)).
  { destruct v; try (right; destruct (Strconv.Atoi _) as [r [e|]];
                     [discriminate|now injection Ei as ->]).
    left. now injection Ei as ->. }
  destruct Ha as [->|Ha]; [now apply Hv|exact (Atoi_in_range _ _ Ha)].
Qed.

End Coverage.

(** ** The further properties at concrete inputs *)

Section CoverageWitnesses.

#[local] Existing Instance plain_lib.
#[local] Existing Instance default_vars.
#[local] Open Scope go_scope.

(** X1 on the keys "g:e" and "f". *)
Lemma X1_witness :
  Delimiter = String ":" ""
  /\ splitSections ("g:e" +:+ Delimiter +:+ "f")
     = (splitSections "g:e" ++ splitSections "f")%list.
Proof.
  split; [reflexivity|].
  apply (X1_segments_of_joined_keys ":" "g:e" "f"). reflexivity.
Defined.

(** X2 on a key with leading, repeated and trailing delimiters. *)
Lemma X2_witness :
  Delimiter <> ""
  /\ Strings.Join (splitSections ":a::b:") Delimiter = ":a::b:".
Proof.
  split; [discriminate|].
  apply (X2_joined_segments_are_the_key ":a::b:"). discriminate.
Defined.

(** X3 on [{g: {e: {f: "true"}}}]: "g" and then "e", and "g:e". *)
Lemma X3_witness :
  Delimiter = String ":" ""
  /\ section_at (boot tree_gef) root tree_gef
  /\ is_Some (resolve tree_gef (removelast (splitSections "g")))
  /\ (s1 <- GetSection (Some root) "g" ;;
      call s1 (fun s => GetSection s "e")) (boot tree_gef)
     = GetSection (Some root) ("g" +:+ Delimiter +:+ "e") (boot tree_gef).
Proof.
  assert (Hres : is_Some (resolve tree_gef (removelast (splitSections "g"))))
    by (exists tree_gef; reflexivity).
  split; [reflexivity|]. split; [reflexivity|]. split; [exact Hres|].
  apply (X3_GetSection_in_two_steps ":" "g" "e" (boot tree_gef) root tree_gef);
    [reflexivity|reflexivity|exact Hres].
Defined.

(** X4 on [{g: {e: {f: "true"}}}]: [c.GetSection("g:e").GetBool("f")], as
    in examples/example.go, and [c.GetBool("g:e:f")]. *)
Lemma X4_witness :
  Delimiter = String ":" ""
  /\ section_at (boot tree_gef) root tree_gef
  /\ is_Some (resolve tree_gef (removelast (splitSections "g:e")))
  /\ (s1 <- GetSection (Some root) "g:e" ;;
      call s1 (fun s => GetBool s "f")) (boot tree_gef)
     = GetBool (Some root) ("g:e" +:+ Delimiter +:+ "f") (boot tree_gef).
Proof.
  assert (Hres : is_Some (resolve tree_gef
                            (removelast (splitSections "g:e"))))
    by (exists tree_ef; vm_compute; reflexivity).
  split; [reflexivity|]. split; [reflexivity|]. split; [exact Hres|].
  destruct (X4_getters_below_a_section (vars := default_vars) ":" "g:e" "f"
              (boot tree_gef) root tree_gef ltac:(reflexivity)
              ltac:(reflexivity) Hres) as (_ & _ & _ & Hb & _).
  exact Hb.
Defined.

(** X5 on [tree_leaves]: "a:n" and then "k". *)
Lemma X5_witness :
  Delimiter <> ""
  /\ section_at (boot tree_leaves) root tree_leaves
  /\ exists r1 r2 h1 h2 h2',
       GetValue (Some root) "a:n" (boot tree_leaves) = Ret r1 h1
       /\ section_at h1 root tree_leaves
       /\ GetValue (Some root) "k" h1 = Ret r2 h2
       /\ GetValue (Some root) "k" (boot tree_leaves) = Ret r2 h2'.
Proof.
  split; [discriminate|]. split; [reflexivity|].
  apply (X5_reads_can_be_repeated "a:n" "k" (boot tree_leaves) root
           tree_leaves); [discriminate|reflexivity].
Defined.

(** X6 on [{g: {e: {f: "true"}}}] and the key "g:e". *)
Lemma X6_witness :
  Delimiter <> ""
  /\ section_at (boot tree_gef) root tree_gef
  /\ match resolve tree_gef (splitSections "g:e") with
     | Some mq =>
         exists q h',
           GetSection (Some root) "g:e" (boot tree_gef)
             = Ret (Pointer (Some q)) h'
           /\ section_at h' q mq /\ boot tree_gef !! q = None
     | None =>
         exists h',
           GetSection (Some root) "g:e" (boot tree_gef) =
             Ret (match resolve tree_gef (removelast (splitSections "g:e"))
                  with
                  | Some _ => Pointer None
                  | None => NilInterface
                  end) h'
     end.
Proof.
  split; [discriminate|]. split; [reflexivity|].
  apply (X6_what_GetSection_returns "g:e" (boot tree_gef) root tree_gef);
    [discriminate|reflexivity].
Defined.

(** X7 on [{g: {e: {f: "true"}}}], the key "g:e" and the mapping
    [{f: "true"}]. *)
Lemma X7_witness :
  Delimiter <> ""
  /\ section_at (boot tree_gef) root tree_gef
  /\ ((exists h1, GetValue (Some root) "g:e" (boot tree_gef)
                  = Ret (Some (VMap tree_f), None) h1)
      <-> (exists q h2, GetSection (Some root) "g:e" (boot tree_gef)
                          = Ret (Pointer (Some q)) h2
                        /\ section_at h2 q tree_f)).
Proof.
  split; [discriminate|]. split; [reflexivity|].
  apply (X7_a_mapping_as_value_and_as_section "g:e" (boot tree_gef) root
           tree_gef tree_f); [discriminate|reflexivity].
Defined.


(** X9 on [tree_leaves]: under "a" is a mapping. *)
Lemma X9_witness :
  GetValue (Some root) "a" (boot tree_leaves)
    = Ret (Some (VMap tree_a), None) (boot tree_leaves)
  /\ GetInt (Some root) "a" (boot tree_leaves)
     = Ret (0, Some (ErrNum (Strconv.syntaxError "Atoi"
                               "map[bad:abc n:42 on:true s:42]")))
           (boot tree_leaves)
  /\ GetIntOrDef (Some root) "a" 7 (boot tree_leaves)
     = Ret 7 (boot tree_leaves).
Proof.
  assert (Hv : GetValue (Some root) "a" (boot tree_leaves)
               = Ret (Some (VMap tree_a), None) (boot tree_leaves))
    by (vm_compute; reflexivity).
  split; [exact Hv|].
  destruct (X9_typed_getters_on_a_mapping (Some root) "a" (boot tree_leaves)
              tree_a (boot tree_leaves) 7 true Hv) as (Hi & _ & Hd & _).
  split; [exact Hi|exact Hd].
Defined.

(** X10 on [tree_leaves]: under "k" is a string that is no number. *)
Lemma X10_witness :
  GetValue (Some root) "k" (boot tree_leaves)
    = Ret (Some (VString "abc"), None) (boot tree_leaves)
  /\ exists ri, GetInt (Some root) "k" (boot tree_leaves)
                = Ret ri (boot tree_leaves)
                /\ (ri.2 = Some ErrNil <-> Some (VString "abc") = None).
Proof.
  assert (Hv : GetValue (Some root) "k" (boot tree_leaves)
               = Ret (Some (VString "abc"), None) (boot tree_leaves))
    by (vm_compute; reflexivity).
  split; [exact Hv|].
  destruct (X10_ErrNil_means_absent (Some root) "k" (boot tree_leaves) _ _ Hv)
    as (_ & rs & ri & rb & rf & _ & Hi & _ & _ & _ & Hiff & _).
  exists ri. split; [exact Hi|exact Hiff].
Defined.

(** X11 with the delimiter set to the empty string, on the empty key. *)
Lemma X11_witness :
  @splitSections plain_lib {| Delimiter := "" |} "" = []
  /\ section_at (boot tree_leaves) root tree_leaves
  /\ @GetValue plain_lib {| Delimiter := "" |} (Some root) ""
       (boot tree_leaves) = Panic
  /\ @GetSection plain_lib {| Delimiter := "" |} (Some root) ""
       (boot tree_leaves) = Ret (Pointer (Some root)) (boot tree_leaves).
Proof.
  assert (Hk : @splitSections plain_lib {| Delimiter := "" |} "" = [])
    by reflexivity.
  assert (Hp : section_at (boot tree_leaves) root tree_leaves)
    by reflexivity.
  split; [exact Hk|]. split; [exact Hp|].
  destruct (@X11_a_key_without_segments plain_lib {| Delimiter := "" |} ""
              (boot tree_leaves) root tree_leaves None 0 Hk Hp)
    as (Hv & _ & _ & _ & _ & Hs).
  split; [exact Hv|exact Hs].
Defined.

(** X12 on [tree_big]: the number under "big" is one too large. *)
Lemma X12_witness :
  GetInt (Some root) "big" (boot tree_big)
    = Ret (2 ^ 63 - 1,
           Some (ErrNum (Strconv.rangeError "Atoi" "9223372036854775808")))
          (boot tree_big)
  /\ (2 ^ 63 - 1 = 2 ^ 63 - 1 \/ 2 ^ 63 - 1 = - 2 ^ 63).
Proof.
  assert (Hi : GetInt (Some root) "big" (boot tree_big)
    = Ret (2 ^ 63 - 1,
           Some (ErrNum (Strconv.rangeError "Atoi" "9223372036854775808")))
          (boot tree_big)) by (vm_compute; reflexivity).
  split; [exact Hi|].
  exact (X12_GetInt_beside_an_error _ _ _ _ _ _ Hi).
Defined.

(** X13 on [tree_big]: the smallest 64-bit integer is read back. *)
Lemma X13_witness :
  - 2 ^ 63 <= - 2 ^ 63 < 2 ^ 63
  /\ GetValue (Some root) "min" (boot tree_big)
     = Ret (Some (VString (showValue (VInt (- 2 ^ 63)))), None)
           (boot tree_big)
  /\ GetInt (Some root) "min" (boot tree_big)
     = Ret (- 2 ^ 63, None) (boot tree_big).
Proof.
  assert (Hn : - 2 ^ 63 <= - 2 ^ 63 < 2 ^ 63) by (split; [reflexivity|lia]).
  assert (Hv : GetValue (Some root) "min" (boot tree_big)
     = Ret (Some (VString (showValue (VInt (- 2 ^ 63)))), None)
           (boot tree_big)) by (vm_compute; reflexivity).
  split; [exact Hn|]. split; [exact Hv|].
  exact (proj1 (X13_printed_values_are_read_back (Some root) "min"
                  (boot tree_big) (boot tree_big)) _ Hn Hv).
Defined.

(** X14 on [{g: {e: {f: "true"}}}]: under "g:e:f" is the string
    "true". *)
Lemma X14_witness :
  GetValue (Some root) "g:e:f" (boot tree_gef)
    = Ret (Some (VString "true"), None) (boot2 tree_gef tree_ef tree_f)
  /\ (forall b, VString "true" <> VBool b)
  /\ (GetBool (Some root) "g:e:f" (boot tree_gef)
        = Ret (true, None) (boot2 tree_gef tree_ef tree_f)
      <-> showValue (VString "true")
          ∈ ["1"; "t"; "T"; "TRUE"; "true"; "True"]).
Proof.
  assert (Hv : GetValue (Some root) "g:e:f" (boot tree_gef)
    = Ret (Some (VString "true"), None) (boot2 tree_gef tree_ef tree_f))
    by (vm_compute; reflexivity).
  assert (Hb : forall b, VString "true" <> VBool b) by discriminate.
  split; [exact Hv|]. split; [exact Hb|].
  exact (proj1 (X14_GetBool_vocabulary _ _ _ _ _ Hv Hb)).
Defined.

(** X15 on [tree_leaves]: the string "42" under "a:s". *)
Lemma X15_witness :
  GetValue (Some root) "a:s" (boot tree_leaves)
    = Ret (Some (VString "42"), None) (boot1 tree_leaves tree_a)
  /\ (forall m, VString "42" = VInt m -> - 2 ^ 63 <= m < 2 ^ 63)
  /\ GetInt (Some root) "a:s" (boot tree_leaves)
     = Ret (42, None) (boot1 tree_leaves tree_a)
  /\ - 2 ^ 63 <= 42 < 2 ^ 63.
Proof.
  assert (Hv : GetValue (Some root) "a:s" (boot tree_leaves)
    = Ret (Some (VString "42"), None) (boot1 tree_leaves tree_a))
    by (vm_compute; reflexivity).
  assert (Hm : forall m, VString "42" = VInt m -> - 2 ^ 63 <= m < 2 ^ 63)
    by discriminate.
  assert (Hi : GetInt (Some root) "a:s" (boot tree_leaves)
     = Ret (42, None) (boot1 tree_leaves tree_a))
    by (vm_compute; reflexivity).
  split; [exact Hv|]. split; [exact Hm|]. split; [exact Hi|].
  exact (X15_GetInt_is_a_64_bit_integer _ _ _ _ _ _ Hv Hm Hi).
Defined.

End CoverageWitnesses.
